(** * Image generation: browser client and job lifecycle

    A shallow embedding of [src/frontend/static/js/image-generation.js]
    (the browser side of the cart image generator) together with the job
    lifecycle of the image generation service that the client talks to.

    - [JS]      : the fragment of JavaScript values and string primitives
                  the client relies on.
    - [Client]  : the script itself, one Rocq function per JavaScript
                  function; [async] functions are cut at their [await].
    - [Service] : the Job Store, the Generation Worker and the Request
                  Gateway.  The service's implementation
                  ([imagegenservice.py], [handlers.go]) is not part of the
                  sources at hand, so this module follows the written
                  specification and every definition in it says so. *)

From stdpp Require Import base numbers strings list gmap pretty sorting.

(* ===================================================================== *)
(** ** JavaScript values and string primitives                            *)
(* ===================================================================== *)

Module JS.

(** The values that reach the script: its own variables and the fields of
    JSON replies.  [JNum n] is the number [n] where a double holds it
    exactly, that is for [|n| <= 2^53]; larger and fractional numbers,
    objects and arrays as field values are outside the model. *)
Inductive jsval :=
| JUndefined
| JNull
| JBool (b : bool)
| JNum (n : Z)
| JStr (s : string).

Global Instance jsval_eq_dec : EqDecision jsval.
Proof. solve_decision. Defined.

(** [ToBoolean]: what [if (v)], [!v] and [v || w] test. *)
Definition truthy (v : jsval) : bool :=
  match v with
  | JUndefined | JNull => false
  | JBool b => b
  | JNum n => negb (n =? 0)%Z
  | JStr s => negb (String.eqb s "")
  end.

(** [a || b] *)
Definition js_or (a b : jsval) : jsval := if truthy a then a else b.

(** [ToString], as applied by string concatenation, template literals and
    [new Error(v).message].  A number within the range of [JNum] prints as
    its decimal digits. *)
Definition ToString (v : jsval) : string :=
  match v with
  | JUndefined => "undefined"
  | JNull => "null"
  | JBool true => "true"
  | JBool false => "false"
  | JNum n => pretty n
  | JStr s => s
  end.

(** [v === 'lit'] for a string literal. *)
Definition strict_eq_str (v : jsval) (lit : string) : bool :=
  match v with
  | JStr s => String.eqb s lit
  | _ => false
  end.

(** The value of an optional string: [undefined] when absent. *)
Definition of_option (o : option string) : jsval :=
  match o with Some s => JStr s | None => JUndefined end.

(** [s.startsWith(p)] *)
Fixpoint startsWith (p s : string) : bool :=
  match p, s with
  | EmptyString, _ => true
  | String _ _, EmptyString => false
  | String a p', String b s' =>
      if decide (a = b) then startsWith p' s' else false
  end.

Fixpoint drop_chars (n : nat) (s : string) : string :=
  match n, s with
  | O, _ => s
  | S _, EmptyString => EmptyString
  | S n', String _ s' => drop_chars n' s'
  end.

(** The text that follows the first occurrence of [sep], when there is
    one. *)
Fixpoint after_first (sep s : string) : option string :=
  if startsWith sep s then Some (drop_chars (String.length sep) s)
  else match s with
       | EmptyString => None
       | String _ s' => after_first sep s'
       end.

(** The text that precedes the first occurrence of [sep]; the whole string
    when [sep] does not occur. *)
Fixpoint before_first (sep s : string) : string :=
  if startsWith sep s then EmptyString
  else match s with
       | EmptyString => EmptyString
       | String c s' => String c (before_first sep s')
       end.

(** [s.split(sep)[1]] for a non-empty separator: the piece between the
    first and the second occurrence of [sep]; [undefined] (here [None])
    when [sep] does not occur in [s]. *)
Definition split_1 (sep s : string) : option string :=
  before_first sep <$> after_first sep s.

Definition is_digit (c : Ascii.ascii) : bool :=
  let n := Ascii.N_of_ascii c in ((48 <=? n) && (n <=? 57))%N.

Fixpoint take_digits (s : string) : string :=
  match s with
  | EmptyString => EmptyString
  | String c s' => if is_digit c then String c (take_digits s') else EmptyString
  end.

(** [s.match(/\d+/)]: the first maximal run of decimal digits; [null]
    (here [None]) when [s] holds no digit.  Index [0] of the match is the
    run itself. *)
Fixpoint match_digits (s : string) : option string :=
  match s with
  | EmptyString => None
  | String c s' => if is_digit c then Some (take_digits s) else match_digits s'
  end.

Definition digit_value (c : Ascii.ascii) : Z :=
  (Z.of_N (Ascii.N_of_ascii c) - 48)%Z.

Fixpoint parse_digits (acc : Z) (s : string) : Z :=
  match s with
  | EmptyString => acc
  | String c s' => parse_digits (10 * acc + digit_value c)%Z s'
  end.

(** The numbers [parseInt] returns.  A JavaScript number is a double: it
    holds every integer up to [2^53], and of the larger ones only some.
    [Exact n] is the integer [n]; [Rounded digits] is the double that
    JavaScript makes of the integer that [digits] writes - a double next
    to it, or [Infinity] when the run is too long for any - which is not
    computed here. *)
Inductive number :=
| Exact (n : Z)
| Rounded (digits : string).

Global Instance number_eq_dec : EqDecision number.
Proof. solve_decision. Defined.

(** Integer literals of the script, such as the default quantity [1]. *)
Coercion Exact : Z >-> number.

(** [Number.MAX_SAFE_INTEGER + 1] *)
Definition two_53 : Z := 2 ^ 53.

(** [parseInt(s)] on a run of decimal digits, as [match_digits] returns
    them. *)
Definition parseInt (s : string) : number :=
  if (parse_digits 0 s <=? two_53)%Z then Exact (parse_digits 0 s)
  else Rounded s.

(** A string of decimal digits only. *)
Fixpoint all_digits (s : string) : bool :=
  match s with
  | EmptyString => true
  | String c s' => is_digit c && all_digits s'
  end.

(** [s.includes(sep)]: [sep] occurs somewhere in [s]. *)
Fixpoint includes (sep s : string) : bool :=
  if startsWith sep s then true
  else match s with
       | EmptyString => false
       | String _ s' => includes sep s'
       end.

(** Some character of [s] is a decimal digit. *)
Fixpoint has_digit (s : string) : bool :=
  match s with
  | EmptyString => false
  | String c s' => is_digit c || has_digit s'
  end.

(** The outcome of a call that may throw. *)
Inductive result (A : Type) :=
| Ok (a : A)
| Throw (message : string).
Global Arguments Ok {A} a.
Global Arguments Throw {A} message.

End JS.

(* ===================================================================== *)
(** ** The browser client: [image-generation.js]                          *)
(* ===================================================================== *)

Module Client.
Import JS.

(** *** The page and the network, as the script sees them *)

(** A [File] of the upload input: the MIME type and the size in bytes as
    the browser reports them, and the contents of the file in base64, as
    a [FileReader] hands them on.  The type is derived by the browser from
    the name of the file, not from its contents. *)
Record File := { file_type : string; file_size : N; file_data : string }.


(** What [row.querySelector('.col:contains("Quantity:")')] answers for a
    row.  [:contains] is a jQuery extension and no standard selector; an
    engine that does not know it - every browser - raises a
    [SyntaxError].  [QNoMatch] and [QMatch] are the answers of an engine
    that knows it. *)
Inductive query :=
| QInvalidSelector
| QNoMatch
| QMatch (textContent : string).

(** A [.cart-summary-item-row]: the [href] of its first anchor matching
    [a[href*="/product/"]], when there is one, and the answer to the
    quantity query. *)
Record CartRow := { product_link : option string; quantity_col : query }.

Record CartItem := { product_id : jsval; quantity : number }.

Record GenerateImageBody := {
  user_id : string;
  style_preference : string;
  background_image_url : jsval;
  cart_items : list CartItem
}.

Inductive request :=
| UploadBackgroundReq (image_data : jsval)
| GenerateImageReq (body : GenerateImageBody)
| StatusReq (generation_id : string).

Definition url (r : request) : string :=
  match r with
  | UploadBackgroundReq _ => "/api/v1/upload-background"
  | GenerateImageReq _ => "/api/v1/generate-image"
  | StatusReq id => "/api/v1/status/" +:+ id
  end.

(** How [await fetch(..)] followed by [await response.json()] settles,
    as far as the code after it can tell: with a reply whose fields can be
    read, or by throwing - a network failure, a body that is not JSON, or
    the JSON value [null], on which the first field access throws. *)
Inductive FetchOutcome :=
| Json (result : gmap string jsval)
| Threw (message : string).

(** [result.name] *)
Definition field (result : gmap string jsval) (name : string) : jsval :=
  default JUndefined (result !! name).

Inductive callback := PollGenerationStatus.

(** What the script does to the world outside its own variables and the
    DOM.  Console output is left out. *)
Inductive effect :=
| EAlert (message : string)
| EFetch (r : request)
| ESetTimeout (cb : callback) (ms : Z)
| EReadAsDataURL (f : File)
| EDownload (href filename : string)
| EUncaught (message : string).

(** *** State: the three globals and the DOM

    The DOM is a store from ["element.property"] to the value last
    assigned; the elements the script looks up are taken to exist. *)
Record state := {
  currentGenerationId : jsval;
  uploadedBackgroundUrl : jsval;
  uploadedBackgroundData : jsval;
  dom : gmap string string
}.

Definition set_currentGenerationId (v : jsval) (st : state) : state :=
  {| currentGenerationId := v;
     uploadedBackgroundUrl := uploadedBackgroundUrl st;
     uploadedBackgroundData := uploadedBackgroundData st;
     dom := dom st |}.

Definition set_uploadedBackgroundUrl (v : jsval) (st : state) : state :=
  {| currentGenerationId := currentGenerationId st;
     uploadedBackgroundUrl := v;
     uploadedBackgroundData := uploadedBackgroundData st;
     dom := dom st |}.

Definition set_uploadedBackgroundData (v : jsval) (st : state) : state :=
  {| currentGenerationId := currentGenerationId st;
     uploadedBackgroundUrl := uploadedBackgroundUrl st;
     uploadedBackgroundData := v;
     dom := dom st |}.

Definition set_dom (key value : string) (st : state) : state :=
  {| currentGenerationId := currentGenerationId st;
     uploadedBackgroundUrl := uploadedBackgroundUrl st;
     uploadedBackgroundData := uploadedBackgroundData st;
     dom := <[key := value]> (dom st) |}.

Definition dom_value (key : string) (st : state) : string :=
  default "" (dom st !! key).

(** The script as loaded: lines 18-20. *)
Definition initial (page : gmap string string) : state :=
  {| currentGenerationId := JNull;
     uploadedBackgroundUrl := JNull;
     uploadedBackgroundData := JNull;
     dom := page |}.

(** *** Commands: a state transformer that also emits effects *)

Definition cmd := state → state * list effect.

Definition skip : cmd := λ st, (st, []).
Definition modify (f : state → state) : cmd := λ st, (f st, []).
Definition emit (e : effect) : cmd := λ st, (st, [e]).
Definition seq (c1 c2 : cmd) : cmd := λ st,
  let '(st1, e1) := c1 st in
  let '(st2, e2) := c2 st1 in
  (st2, e1 ++ e2).

Declare Scope cmd_scope.
Delimit Scope cmd_scope with cmd.
Bind Scope cmd_scope with cmd.
Notation "c1 ;; c2" := (seq c1 c2)
  (at level 100, c2 at level 200, right associativity) : cmd_scope.
Local Open Scope cmd_scope.

Definition assign (key value : string) : cmd := modify (set_dom key value).

(** *** The functions of the script *)

(** lines 103-114 *)
Definition removeBackground : cmd :=
  assign "backgroundPreview.style.display" "none" ;;
  assign "backgroundPlaceholder.style.display" "block" ;;
  assign "backgroundUpload.value" "" ;;
  modify (set_uploadedBackgroundUrl JNull) ;;
  modify (set_uploadedBackgroundData JNull).

(** lines 41-60 *)
Definition resetImageGenerationForm : cmd :=
  assign "stylePreference.value" "modern" ;;
  assign "backgroundUpload.value" "" ;;
  assign "generationProgress.style.display" "none" ;;
  assign "generatedImageResult.style.display" "none" ;;
  assign ".image-generation-form.style.display" "block" ;;
  removeBackground ;;
  modify (set_currentGenerationId JNull) ;;
  modify (set_uploadedBackgroundUrl JNull) ;;
  modify (set_uploadedBackgroundData JNull).

(** lines 23-30 *)
Definition openImageGenerationModal : cmd :=
  assign "imageGenerationModal.style.display" "block" ;;
  assign "body.style.overflow" "hidden" ;;
  resetImageGenerationForm.

(** lines 32-39 *)
Definition closeImageGenerationModal : cmd :=
  assign "imageGenerationModal.style.display" "none" ;;
  assign "body.style.overflow" "auto" ;;
  resetImageGenerationForm.

(** line 74: [10 * 1024 * 1024] *)
Definition max_background_bytes : N := 10 * 1024 * 1024.

(** lines 63-91, up to [reader.readAsDataURL(file)]; the argument is
    [event.target.files[0]]. *)
Definition handleBackgroundUpload (file : option File) : cmd :=
  match file with
  | None => skip
  | Some f =>
      if negb (startsWith "image/" (file_type f)) then
        emit (EAlert "Please select an image file.")
      else if (max_background_bytes <? file_size f)%N then
        emit (EAlert "File size must be less than 10MB.")
      else
        emit (EReadAsDataURL f)
  end.

(** lines 93-101 *)
Definition showBackgroundPreview (imageData : string) : cmd :=
  assign "backgroundPreviewImg.src" imageData ;;
  assign "backgroundPreview.style.display" "block" ;;
  assign "backgroundPlaceholder.style.display" "none".

(** lines 116-126: [uploadBackgroundToServer] up to its first [await]. *)
Definition uploadBackgroundToServer : cmd := λ st,
  (st, [EFetch (UploadBackgroundReq (uploadedBackgroundData st))]).

(** lines 128-142: the rest of [uploadBackgroundToServer], once the
    request has settled. *)
Definition uploadBackgroundToServer_settled (o : FetchOutcome) : cmd :=
  match o with
  | Json result =>
      if strict_eq_str (field result "status") "success" then
        modify (set_uploadedBackgroundUrl (field result "image_url"))
      else
        emit (EAlert "Failed to upload background image. Please try again.") ;;
        removeBackground
  | Threw _ =>
      emit (EAlert "Error uploading background image. Please try again.") ;;
      removeBackground
  end.

(** lines 81-89: [reader.onload], with [e.target.result]. *)
Definition reader_onload (dataURL : string) : cmd :=
  modify (set_uploadedBackgroundData (of_option (split_1 "," dataURL))) ;;
  showBackgroundPreview dataURL ;;
  uploadBackgroundToServer.

(** lines 212-222: the body of the [forEach] callback.  [Ok None] is a row
    that contributes no item. *)
Definition cart_item_of_row (row : CartRow) : result (option CartItem) :=
  match product_link row with
  | None => Ok None
  | Some href =>
      let productId := of_option (split_1 "/product/" href) in
      match quantity_col row with
      | QInvalidSelector =>
          Throw "SyntaxError: not a valid selector"
      | QNoMatch =>
          Ok (Some {| product_id := productId; quantity := Exact 1 |})
      | QMatch textContent =>
          match match_digits textContent with
          | None => Throw "TypeError: null has no property 0"
          | Some digits =>
              Ok (Some {| product_id := productId;
                          quantity := parseInt digits |})
          end
      end
  end.

(** [itemRows.forEach(..)] pushing onto [cartItems]; a throwing callback
    ends the iteration. *)
Fixpoint forEach_rows (itemRows : list CartRow) (cartItems : list CartItem)
  : result (list CartItem) :=
  match itemRows with
  | [] => Ok cartItems
  | row :: rest =>
      match cart_item_of_row row with
      | Throw m => Throw m
      | Ok None => forEach_rows rest cartItems
      | Ok (Some item) => forEach_rows rest (cartItems ++ [item])
      end
  end.

(** lines 207-226 *)
Definition getCartItemsFromPage (itemRows : list CartRow)
  : result (list CartItem) :=
  forEach_rows itemRows [].

(** lines 228-232, with [Date.now()] as [now]. *)
Definition getCurrentUserId (now : Z) : string := "user_" +:+ pretty now.

(** lines 243-249 *)
Definition updateProgress (percentage : jsval) : cmd :=
  assign "progressBar.style.width" (ToString percentage +:+ "%") ;;
  assign "progressText.textContent" (ToString percentage +:+ "%").

(** lines 234-241 *)
Definition showGenerationProgress : cmd :=
  assign ".image-generation-form.style.display" "none" ;;
  assign "generationProgress.style.display" "block" ;;
  assign "generatedImageResult.style.display" "none" ;;
  updateProgress (JNum 0).

(** lines 275-291; the [onerror] handler it installs is
    [generatedImage_onerror]. *)
Definition showGeneratedImage (imageUrl : jsval) : cmd :=
  assign "generationProgress.style.display" "none" ;;
  assign "generatedImageResult.style.display" "block" ;;
  assign "generatedImage.src" (ToString imageUrl).

(** lines 286-290 *)
Definition generatedImage_onerror : cmd :=
  emit (EAlert "Failed to load generated image. Please try again.") ;;
  resetImageGenerationForm.

(** lines 251-255: [pollGenerationStatus] up to its first [await]. *)
Definition pollGenerationStatus : cmd := λ st,
  if truthy (currentGenerationId st) then
    (st, [EFetch (StatusReq (ToString (currentGenerationId st)))])
  else (st, []).

(** lines 268-272: the [catch] block of [pollGenerationStatus]. *)
Definition pollGenerationStatus_catch (message : string) : cmd :=
  emit (EAlert ("Error checking generation status: " +:+ message)) ;;
  resetImageGenerationForm.

(** lines 256-272: the rest of [pollGenerationStatus], once the request
    has settled. *)
Definition pollGenerationStatus_settled (o : FetchOutcome) : cmd :=
  match o with
  | Json result =>
      updateProgress (js_or (field result "progress") (JNum 0)) ;;
      if strict_eq_str (field result "status") "completed" then
        showGeneratedImage (field result "image_url")
      else if strict_eq_str (field result "status") "failed" then
        pollGenerationStatus_catch
          (ToString (js_or (field result "error_message")
                           (JStr "Image generation failed")))
      else if strict_eq_str (field result "status") "processing" then
        emit (ESetTimeout PollGenerationStatus 2000)
      else skip
  | Threw message => pollGenerationStatus_catch message
  end.

(** lines 146-182: [generateImage] up to its first [await].  The cart is
    read outside the [try], so a throwing [getCartItemsFromPage] rejects
    the promise of [generateImage] and nobody handles it. *)
Definition generateImage (itemRows : list CartRow) (now : Z) : cmd := λ st,
  let stylePreference := dom_value "stylePreference.value" st in
  match getCartItemsFromPage itemRows with
  | Throw m => (st, [EUncaught m])
  | Ok cartItems =>
      if (length cartItems =? 0)%nat then
        emit (EAlert "Your cart is empty. Please add some items before generating an image.") st
      else
        (showGenerationProgress ;;
         (λ st',
            let requestData :=
              {| user_id := getCurrentUserId now;
                 style_preference := stylePreference;
                 background_image_url :=
                   js_or (uploadedBackgroundUrl st') (JStr "");
                 cart_items := cartItems |} in
            emit (EFetch (GenerateImageReq requestData)) st')) st
  end.

(** lines 200-204: the [catch] block of [generateImage]. *)
Definition generateImage_catch (message : string) : cmd :=
  emit (EAlert ("Error generating image: " +:+ message)) ;;
  resetImageGenerationForm.

(** lines 184-204: the rest of [generateImage], once the request has
    settled. *)
Definition generateImage_settled (o : FetchOutcome) : cmd :=
  match o with
  | Json result =>
      if strict_eq_str (field result "status") "completed" then
        modify (set_currentGenerationId (field result "generation_id")) ;;
        showGeneratedImage (field result "image_url")
      else if strict_eq_str (field result "status") "processing" then
        modify (set_currentGenerationId (field result "generation_id")) ;;
        pollGenerationStatus
      else
        generateImage_catch
          (ToString (js_or (field result "error_message")
                           (JStr "Image generation failed")))
  | Threw message => generateImage_catch message
  end.

(** lines 293-309, with [Date.now()] as [now].  [src] is what reading
    [generatedImage.src] gives: the address the browser resolved from the
    value last assigned, and the empty string when the image has none. *)
Definition downloadImage (src : string) (now : Z) : cmd := λ st,
  let imageUrl := src in
  if String.eqb imageUrl "" then
    emit (EAlert "No image to download.") st
  else
    emit (EDownload imageUrl
            ("cart-image-" +:+
             ToString (js_or (currentGenerationId st) (JNum now)) +:+
             ".jpg")) st.

(** lines 320-327: the [keydown] listener, for the Escape key. *)
Definition escape_keydown : cmd := λ st,
  if String.eqb (dom_value "imageGenerationModal.style.display" st) "block"
  then closeImageGenerationModal st
  else skip st.

(** *** The script as a reactive machine

    Everything that can call into the script: the buttons and inputs of
    the page, the callbacks it registers, and the settling of the requests
    it sends. *)
Inductive event :=
| OpenModal
| CloseModal
| ClickOutside
| EscapeKey
| BackgroundChange (file : option File)
| ReaderLoad (dataURL : string)
| UploadSettled (o : FetchOutcome)
| RemoveBackground
| SelectStyle (value : string)
| Generate (itemRows : list CartRow) (now : Z)
| GenerateSettled (o : FetchOutcome)
| PollTimer
| PollSettled (o : FetchOutcome)
| GeneratedImageError
| Download (src : string) (now : Z).

Definition step (ev : event) : cmd :=
  match ev with
  | OpenModal => openImageGenerationModal
  | CloseModal => closeImageGenerationModal
  | ClickOutside => closeImageGenerationModal
  | EscapeKey => escape_keydown
  | BackgroundChange file => handleBackgroundUpload file
  | ReaderLoad dataURL => reader_onload dataURL
  | UploadSettled o => uploadBackgroundToServer_settled o
  | RemoveBackground => removeBackground
  | SelectStyle value => assign "stylePreference.value" value
  | Generate itemRows now => generateImage itemRows now
  | GenerateSettled o => generateImage_settled o
  | PollTimer => pollGenerationStatus
  | PollSettled o => pollGenerationStatus_settled o
  | GeneratedImageError => generatedImage_onerror
  | Download src now => downloadImage src now
  end.

Fixpoint run (evs : list event) : cmd :=
  match evs with
  | [] => skip
  | ev :: rest => step ev ;; run rest
  end.

(** A reply whose [status] field is the string [s]. *)
Definition replies_with (s : string) (o : FetchOutcome) : Prop :=
  ∃ result, o = Json result ∧ field result "status" = JStr s.

(** The test of line 130 on a settled upload. *)
Definition upload_succeeded (o : FetchOutcome) : bool :=
  match o with
  | Json result => strict_eq_str (field result "status") "success"
  | Threw _ => false
  end.

Definition is_successful_upload (ev : event) : bool :=
  match ev with
  | UploadSettled o => upload_succeeded o
  | _ => false
  end.

(** The events that assign an identifier to [currentGenerationId]: a
    settled submission whose reply has status ["completed"] or
    ["processing"] (lines 191-196). *)
Definition assigns_generation (ev : event) : bool :=
  match ev with
  | GenerateSettled (Json result) =>
      strict_eq_str (field result "status") "completed"
      || strict_eq_str (field result "status") "processing"
  | _ => false
  end.

(** What a reply that ends in a [catch] block tells the user:
    [result.error_message || 'Image generation failed'] for a reply, the
    message of the error for a thrown request. *)
Definition failure_message (o : FetchOutcome) : string :=
  match o with
  | Json result =>
      ToString (js_or (field result "error_message")
                      (JStr "Image generation failed"))
  | Threw message => message
  end.

(** A settled submission that takes the [else] of line 197 or throws. *)
Definition submission_fails (o : FetchOutcome) : bool :=
  match o with
  | Json result =>
      negb (strict_eq_str (field result "status") "completed"
            || strict_eq_str (field result "status") "processing")
  | Threw _ => true
  end.

(** A settled status request that takes the branch of line 262 or
    throws. *)
Definition poll_fails (o : FetchOutcome) : bool :=
  match o with
  | Json result => strict_eq_str (field result "status") "failed"
  | Threw _ => true
  end.

(** A reply to a status request whose [status] is none of the three
    values lines 260-267 test. *)
Definition poll_unhandled (o : FetchOutcome) : bool :=
  match o with
  | Json result =>
      negb (strict_eq_str (field result "status") "completed"
            || strict_eq_str (field result "status") "failed"
            || strict_eq_str (field result "status") "processing")
  | Threw _ => false
  end.

(** The events whose handler ends in [resetImageGenerationForm] whatever
    the state: opening and closing the modal, a click outside it, and
    the generated image failing to load. *)
Definition always_resets (ev : event) : bool :=
  match ev with
  | OpenModal | CloseModal | ClickOutside | GeneratedImageError => true
  | _ => false
  end.

(** A request to the status endpoint. *)
Definition is_status_request (r : request) : bool :=
  match r with StatusReq _ => true | _ => false end.

(** The form as [resetImageGenerationForm] leaves it: the three globals
    [null], the form shown, the progress and result panels hidden, the
    background preview hidden and its placeholder shown. *)
Definition form_is_reset (st : state) : Prop :=
  currentGenerationId st = JNull
  ∧ uploadedBackgroundUrl st = JNull
  ∧ uploadedBackgroundData st = JNull
  ∧ dom_value ".image-generation-form.style.display" st = "block"
  ∧ dom_value "generationProgress.style.display" st = "none"
  ∧ dom_value "generatedImageResult.style.display" st = "none"
  ∧ dom_value "backgroundPreview.style.display" st = "none"
  ∧ dom_value "backgroundPlaceholder.style.display" st = "block"
  ∧ dom_value "stylePreference.value" st = "modern"
  ∧ dom_value "backgroundUpload.value" st = "".

(** A cart row built from a product identifier and a quantity: a link
    [base/product/<id>] and a quantity text [label<n>], [n] in decimal. *)
Definition rendered_row (base label : string) (entry : string * Z) : CartRow :=
  {| product_link := Some (base +:+ "/product/" +:+ entry.1);
     quantity_col := QMatch (label +:+ pretty entry.2) |}.

Global Instance File_eq_dec : EqDecision File.
Proof. solve_decision. Defined.
Global Instance CartItem_eq_dec : EqDecision CartItem.
Proof. solve_decision. Defined.
Global Instance GenerateImageBody_eq_dec : EqDecision GenerateImageBody.
Proof. solve_decision. Defined.
Global Instance request_eq_dec : EqDecision request.
Proof. solve_decision. Defined.
Global Instance callback_eq_dec : EqDecision callback.
Proof. solve_decision. Defined.
Global Instance effect_eq_dec : EqDecision effect.
Proof. solve_decision. Defined.

(** *** The status loop

    [pollGenerationStatus] re-arms itself through [setTimeout]; one turn
    of the loop is the request, its settling, and - when a timer was set -
    the timer firing.  [replies] are the outcomes of the successive status
    requests; the loop is followed for as long as replies are given. *)
Definition rearmed (effs : list effect) : bool :=
  existsb (λ e, match e with
                | ESetTimeout PollGenerationStatus _ => true
                | _ => false
                end) effs.

Fixpoint pollLoop (replies : list FetchOutcome) : cmd := λ st,
  match replies with
  | [] => (st, [])
  | reply :: later =>
      let '(st1, sent) := pollGenerationStatus st in
      match sent with
      | [] => (st1, [])
      | _ :: _ =>
          let '(st2, settled) := pollGenerationStatus_settled reply st1 in
          if rearmed settled then
            let '(st3, more) := pollLoop later st2 in
            (st3, sent ++ settled ++ more)
          else (st2, sent ++ settled)
      end
  end.

(** The requests a trace of effects sends, and the timers it sets. *)
Definition requests (effs : list effect) : list request :=
  omap (λ e, match e with EFetch r => Some r | _ => None end) effs.

Definition timers (effs : list effect) : list (callback * Z) :=
  omap (λ e, match e with ESetTimeout cb ms => Some (cb, ms) | _ => None end) effs.

Definition alerts (effs : list effect) : list string :=
  omap (λ e, match e with EAlert m => Some m | _ => None end) effs.

(** *** The client against a service

    The service is reached through [fetch] only.  For any service
    whatsoever - a state and a handler of requests - [deliver] hands it
    the requests of a trace, in order. *)
Section Against.
Context {Srv : Type} (serve : request → Srv → Srv * FetchOutcome).

Definition deliver (effs : list effect) (srv : Srv) : Srv :=
  foldl (λ s r, (serve r s).1) srv (requests effs).
End Against.

End Client.

(* ===================================================================== *)
(** ** The service: Job Store, Generation Worker, Request Gateway         *)
(* ===================================================================== *)

Module Service.
Local Open Scope Z_scope.

(** *** Data model *)

(** Modelled from the spec: the stored states of a Job ([not_found] is a
    lookup result, never a stored state); the service's code is not among
    the sources. *)
Inductive status := processing | completed | failed.

Global Instance status_eq_dec : EqDecision status.
Proof. solve_decision. Defined.

(** Modelled from the spec: a terminal state is [completed] or [failed]. *)
Definition terminal (s : status) : bool :=
  match s with processing => false | completed | failed => true end.

(** Modelled from the spec: the Job record of the data model. *)
Record Job := {
  generation_id : string;
  job_status : status;
  progress : Z;
  image_url : string;
  error_message : string;
  created_at : Z
}.

(** Modelled from the spec: the partial fields an [update] carries. *)
Record Patch := {
  new_status : option status;
  new_progress : option Z;
  new_image_url : option string;
  new_error_message : option string
}.

(** *** Job Store *)

(** Modelled from the spec: a Job as [create] allocates it, in state
    [processing] with [progress = 0]. *)
Definition new_job (id : string) (now : Z) : Job :=
  {| generation_id := id; job_status := processing; progress := 0;
     image_url := ""; error_message := ""; created_at := now |}.

(** Modelled from the spec: [create() -> generation_id] of the Job Store,
    whose code is not among the sources; the identifier is one the store
    does not hold. *)
Definition create (now : Z) (jobs : gmap string Job) : string * gmap string Job :=
  let id := fresh (dom jobs) in
  (id, <[id := new_job id now]> jobs).

(** Modelled from the spec: [get(generation_id) -> Job | NotFound] of the
    Job Store, whose code is not among the sources. *)
Definition get (id : string) (jobs : gmap string Job) : option Job :=
  jobs !! id.

(** Modelled from the spec: merging a status/progress/image_url/
    error_message update into a Job. *)
Definition merge (p : Patch) (j : Job) : Job :=
  {| generation_id := generation_id j;
     job_status := default (job_status j) (new_status p);
     progress := default (progress j) (new_progress p);
     image_url := default (image_url j) (new_image_url p);
     error_message := default (error_message j) (new_error_message p);
     created_at := created_at j |}.

(** Modelled from the spec: what [update] reports to its caller, the
    Generation Worker. *)
Inductive update_result := Updated | UnknownId | AlreadyTerminal.

(** Modelled from the spec: [update(generation_id, partial fields)] of the
    Job Store, whose code is not among the sources.  An unknown identifier
    is reported and creates nothing; an update to a Job in a terminal
    state is rejected. *)
Definition update (id : string) (p : Patch) (jobs : gmap string Job)
  : gmap string Job * update_result :=
  match jobs !! id with
  | None => (jobs, UnknownId)
  | Some j =>
      if terminal (job_status j) then (jobs, AlreadyTerminal)
      else (<[id := merge p j]> jobs, Updated)
  end.

(** *** Collaborators and the Generation Worker *)

(** Modelled from the spec: what the product catalog returns. *)
Record Product := {
  product_name : string;
  product_category : string;
  product_image : string
}.

(** Modelled from the spec: the request handed to the external generation
    capability. *)
Record GenerationRequest := {
  gen_style : string;
  gen_products : list (Product * Z);
  gen_background : string
}.

(** Modelled from the spec: what the external generation capability
    returns - image bytes, or a failure with the vendor's own text. *)
Inductive generated :=
| Image (bytes : string)
| VendorError (raw : string).

(** Modelled from the spec: the work dispatched for one Job. *)
Record Task := {
  task_user_id : string;
  task_style : string;
  task_background : string;
  task_cart : list (string * Z)
}.

(** Modelled from the spec: the ways a Job fails - a product the catalog
    does not know, a failed generation (timeout, quota, malformed
    output), a failed write to storage. *)
Inductive failure :=
| ProductUnavailable
| GenerationFailed
| StorageUnavailable.

(** Modelled from the spec: the generic message a failed Job carries,
    never the vendor's text. *)
Definition sanitized (f : failure) : string :=
  match f with
  | ProductUnavailable => "Image generation failed: product unavailable"
  | GenerationFailed => "Image generation failed"
  | StorageUnavailable => "Image generation failed: storage unavailable"
  end.

(** Modelled from the spec: the three updates the Worker sends -
    [update(progress = N)], [status = completed, image_url = <url>,
    progress = 100], and [status = failed] with a sanitized message. *)
Definition progress_patch (n : Z) : Patch :=
  {| new_status := None; new_progress := Some n;
     new_image_url := None; new_error_message := None |}.

(** Modelled from the spec: the update of step 3 of [process]. *)
Definition completed_patch (url : string) : Patch :=
  {| new_status := Some completed; new_progress := Some 100;
     new_image_url := Some url; new_error_message := None |}.

(** Modelled from the spec: the update of a failed [process]. *)
Definition failed_patch (f : failure) : Patch :=
  {| new_status := Some failed; new_progress := None;
     new_image_url := None; new_error_message := Some (sanitized f) |}.

(** Modelled from the spec: the [status] of a status reply - a stored
    state, or [not_found]. *)
Inductive lookup_status := Stored (s : status) | NotFound.

Global Instance lookup_status_eq_dec : EqDecision lookup_status.
Proof. solve_decision. Defined.

(** Modelled from the spec: the body of a status reply,
    [{status, image_url, progress, error_message}]. *)
Record StatusReply := {
  reply_status : lookup_status;
  reply_image_url : string;
  reply_progress : Z;
  reply_error_message : string
}.

(** Modelled from the spec: the body of a submission,
    [{user_id, style_preference, background_image_url, cart_items}]. *)
Record SubmitRequest := {
  req_user_id : string;
  req_style_preference : string;
  req_background_image_url : string;
  req_cart_items : list (string * Z)
}.

(** Modelled from the spec: what an operation of the service answers. *)
Inductive reply :=
| SubmitAccepted (id : string) (s : status)
| SubmitRejected (message : string)
| UploadSuccess (url : string)
| UploadFailed (message : string)
| StatusIs (r : StatusReply)
| WorkerDone (r : update_result)
| WorkerIdle.

(** Modelled from the spec: exactly one of [image_url] and
    [error_message] is non-empty in a terminal state - the former when
    [completed], the latter when [failed] - and both are empty while
    [processing]; a [NotFound] reply carries neither. *)
Definition fields_agree (r : StatusReply) : Prop :=
  match reply_status r with
  | Stored processing | NotFound =>
      reply_image_url r = "" ∧ reply_error_message r = ""
  | Stored completed => reply_image_url r ≠ "" ∧ reply_error_message r = ""
  | Stored failed => reply_image_url r = "" ∧ reply_error_message r ≠ ""
  end.

(** Modelled from the spec: a reply for a Job that can still change -
    not yet there, or [processing]. *)
Definition live (r : StatusReply) : Prop :=
  reply_status r = NotFound ∨ reply_status r = Stored processing.

(** Modelled from the spec: the 10 MiB ceiling of uploads. *)
Definition max_upload_bytes : N := (10 * 1024 * 1024)%N.

Section Collaborators.
(** Modelled from the spec: the external collaborators - product
    catalog, generation capability, durable object storage - and the
    decoding of an uploaded payload into image bytes. *)
Context {Storage : Type}.
Variable lookup_product : string → option Product.
Variable generate_image : GenerationRequest → generated.
Variable put_object : string → Storage → option (string * Storage).
Variable decode_image : string → option string.

(** Modelled from the spec: the state of the service - the Job Store,
    the object storage, and the work dispatched and not yet run. *)
Record Server := {
  store : gmap string Job;
  storage : Storage;
  dispatched : gmap string Task
}.

(** Modelled from the spec: writing back through the Job Store. *)
Definition with_store (jobs : gmap string Job) (srv : Server) : Server :=
  {| store := jobs; storage := storage srv; dispatched := dispatched srv |}.

(** Modelled from the spec: step 1 of [process]; one missing product
    fails the whole cart. *)
Fixpoint resolve_cart (cart : list (string * Z)) : option (list (Product * Z)) :=
  match cart with
  | [] => Some []
  | (product_id, quantity) :: rest =>
      match lookup_product product_id, resolve_cart rest with
      | Some p, Some ps => Some ((p, quantity) :: ps)
      | _, _ => None
      end
  end.

(** Modelled from the spec: steps 1-3 of [process] of the Generation
    Worker, whose code is not among the sources: resolve the cart, call
    the generation capability once, persist the image, and write the
    outcome back through [update]. *)
Definition process (id : string) (t : Task) (srv : Server)
  : Server * update_result :=
  match resolve_cart (task_cart t) with
  | None =>
      let '(jobs, r) := update id (failed_patch ProductUnavailable) (store srv) in
      (with_store jobs srv, r)
  | Some products =>
      match generate_image {| gen_style := task_style t;
                              gen_products := products;
                              gen_background := task_background t |} with
      | VendorError _ =>
          let '(jobs, r) := update id (failed_patch GenerationFailed) (store srv) in
          (with_store jobs srv, r)
      | Image bytes =>
          match put_object bytes (storage srv) with
          | None =>
              let '(jobs, r) :=
                update id (failed_patch StorageUnavailable) (store srv) in
              (with_store jobs srv, r)
          | Some (url, storage') =>
              let '(jobs, r) := update id (completed_patch url) (store srv) in
              ({| store := jobs; storage := storage';
                  dispatched := dispatched srv |}, r)
          end
      end
  end.

(** *** Request Gateway *)

(** Modelled from the spec: [SubmitGeneration] of the Request Gateway,
    whose code is not among the sources: an empty cart is turned away;
    otherwise a Job is created, its work dispatched, and the identifier
    returned with status [processing]. *)
Definition SubmitGeneration (req : SubmitRequest) (now : Z) (srv : Server)
  : Server * reply :=
  match req_cart_items req with
  | [] => (srv, SubmitRejected "cart_items must not be empty")
  | _ :: _ =>
      let '(id, jobs) := create now (store srv) in
      ({| store := jobs; storage := storage srv;
          dispatched :=
            <[id := {| task_user_id := req_user_id req;
                       task_style := req_style_preference req;
                       task_background := req_background_image_url req;
                       task_cart := req_cart_items req |}]> (dispatched srv) |},
       SubmitAccepted id processing)
  end.

(** Modelled from the spec: [UploadBackground] of the Request Gateway,
    whose code is not among the sources: the payload must decode as an
    image and stay within the ceiling; it is then persisted. *)
Definition UploadBackground (image_data : string) (srv : Server)
  : Server * reply :=
  match decode_image image_data with
  | None => (srv, UploadFailed "payload is not an image")
  | Some bytes =>
      if (max_upload_bytes <? N.of_nat (String.length bytes))%N then
        (srv, UploadFailed "payload exceeds 10 MiB")
      else
        match put_object bytes (storage srv) with
        | None => (srv, UploadFailed "storage unavailable")
        | Some (url, storage') =>
            ({| store := store srv; storage := storage';
                dispatched := dispatched srv |}, UploadSuccess url)
        end
  end.

(** Modelled from the spec: [GetStatus] of the Request Gateway, whose
    code is not among the sources: a pure read, [NotFound] for an unknown
    identifier and the Job's fields verbatim otherwise. *)
Definition GetStatus (id : string) (srv : Server) : StatusReply :=
  match get id (store srv) with
  | None =>
      {| reply_status := NotFound; reply_image_url := "";
         reply_progress := 0; reply_error_message := "" |}
  | Some j =>
      {| reply_status := Stored (job_status j);
         reply_image_url := image_url j;
         reply_progress := progress j;
         reply_error_message := error_message j |}
  end.

(** *** The service as a machine *)

(** Modelled from the spec: the three Gateway operations, and the two
    things the Worker does on its own schedule - emit a progress update
    for a Job, and run a dispatched Job to its end. *)
Inductive op :=
| Submit (req : SubmitRequest) (now : Z)
| Upload (image_data : string)
| Status (id : string)
| Progress (id : string) (n : Z)
| Work (id : string).

(** Modelled from the spec: one operation on the service.  The Job
    Store is written through [create] and [update] only; a dispatched
    Job is processed once. *)
Definition exec (o : op) (srv : Server) : Server * reply :=
  match o with
  | Submit req now => SubmitGeneration req now srv
  | Upload image_data => UploadBackground image_data srv
  | Status id => (srv, StatusIs (GetStatus id srv))
  | Progress id n =>
      let '(jobs, r) := update id (progress_patch n) (store srv) in
      (with_store jobs srv, WorkerDone r)
  | Work id =>
      match dispatched srv !! id with
      | None => (srv, WorkerIdle)
      | Some t =>
          let '(srv', r) := process id t srv in
          ({| store := store srv'; storage := storage srv';
              dispatched := delete id (dispatched srv') |}, WorkerDone r)
      end
  end.

(** Modelled from the spec: a run of the service, with the reply to
    each operation. *)
Fixpoint run (ops : list op) (srv : Server) : Server * list (op * reply) :=
  match ops with
  | [] => (srv, [])
  | o :: rest =>
      let '(srv1, r) := exec o srv in
      let '(srv2, log) := run rest srv1 in
      (srv2, (o, r) :: log)
  end.

(** Modelled from the spec: the service at its start, without Jobs. *)
Definition empty_server (s : Storage) : Server :=
  {| store := ∅; storage := s; dispatched := ∅ |}.

(** Modelled from the spec: how one operation of the service can move
    what [GetStatus id] answers - not at all, from [NotFound] to a
    fresh Job, by a progress update, or from [processing] to one of the
    two terminal states as the Worker writes them. *)
Inductive status_step (id : string) (o : op) (g : StatusReply)
  : StatusReply → Prop :=
| step_same : status_step id o g g
| step_created :
    reply_status g = NotFound →
    status_step id o g
      {| reply_status := Stored processing; reply_image_url := "";
         reply_progress := 0; reply_error_message := "" |}
| step_progress n :
    o = Progress id n →
    reply_status g = Stored processing →
    status_step id o g
      {| reply_status := Stored processing;
         reply_image_url := reply_image_url g;
         reply_progress := n;
         reply_error_message := reply_error_message g |}
| step_completed bytes s url s' :
    put_object bytes s = Some (url, s') →
    reply_status g = Stored processing →
    status_step id o g
      {| reply_status := Stored completed;
         reply_image_url := url;
         reply_progress := 100;
         reply_error_message := reply_error_message g |}
| step_failed f :
    reply_status g = Stored processing →
    status_step id o g
      {| reply_status := Stored failed;
         reply_image_url := reply_image_url g;
         reply_progress := reply_progress g;
         reply_error_message := sanitized f |}.

(** Modelled from the spec: successive polls - the replies to the
    [Status id] calls of a log, in order. *)
Definition observed (id : string) (log : list (op * reply)) : list StatusReply :=
  omap (λ e, match e with
             | (Status id', StatusIs r) =>
                 if decide (id' = id) then Some r else None
             | _ => None
             end) log.

(** Modelled from the spec: the values of the progress updates the
    Worker emits for [id], in order. *)
Definition emitted (id : string) (ops : list op) : list Z :=
  omap (λ o, match o with
             | Progress id' n => if decide (id' = id) then Some n else None
             | _ => None
             end) ops.

(** Modelled from the spec: the identifiers a log hands out, in order. *)
Definition issued (log : list (op * reply)) : list string :=
  omap (λ e, match e with
             | (_, SubmitAccepted id _) => Some id
             | _ => None
             end) log.
End Collaborators.

(** *** A small deployment, for examples

    One product in the catalog, a generation capability that fails for
    the style ["broken"], and an object store that keeps the objects in a
    list and names them by their position. *)

(** An example catalog. *)
Definition demo_catalog (product_id : string) : option Product :=
  if String.eqb product_id "OLJCESPC7Z" then
    Some {| product_name := "Sunglasses";
            product_category := "accessories";
            product_image := "/static/img/products/sunglasses.jpg" |}
  else None.

(** An example generation capability. *)
Definition demo_generate (req : GenerationRequest) : generated :=
  if String.eqb (gen_style req) "broken" then
    VendorError "429 RESOURCE_EXHAUSTED: quota exceeded"
  else Image ("jpeg:" +:+ gen_style req).

(** An example object store: objects in a list, URLs by position. *)
Definition demo_put (bytes : string) (objects : list string)
  : option (string * list string) :=
  Some ("https://storage.example/" +:+ pretty (length objects),
        objects ++ [bytes]).

(** An example decoder: payloads that start like a base64 PNG. *)
Definition demo_decode (image_data : string) : option string :=
  if JS.startsWith "iVBORw0KGgo" image_data then Some image_data else None.

(** An example submission: two of the one product. *)
Definition demo_request (style : string) : SubmitRequest :=
  {| req_user_id := "user_1700000000000";
     req_style_preference := style;
     req_background_image_url := "";
     req_cart_items := [("OLJCESPC7Z", 2)] |}.

End Service.

(* ===================================================================== *)
(** ** Facts about the string primitives                                  *)
(* ===================================================================== *)

Module JSFacts.
Import JS.
Local Open Scope Z_scope.

Lemma string_app_nil (b : string) : "" +:+ b = b.
Proof. reflexivity. Qed.

Lemma string_app_cons c (a b : string) : String c a +:+ b = String c (a +:+ b).
Proof. reflexivity. Qed.

Lemma string_app_assoc (a b c : string) : (a +:+ b) +:+ c = a +:+ b +:+ c.
Proof.
  induction a as [|x a IH]; [done|]. rewrite !string_app_cons. by f_equal.
Qed.

Lemma string_app_length (a b : string) :
  String.length (a +:+ b) = (String.length a + String.length b)%nat.
Proof.
  induction a as [|x a IH]; [done|]. rewrite string_app_cons. simpl.
  by rewrite IH.
Qed.

Lemma startsWith_app_long p : ∀ s t,
  (String.length p ≤ String.length s)%nat →
  startsWith p (s +:+ t) = startsWith p s.
Proof.
  induction p as [|a p IH]; intros [|b s] t Hlen; simpl in Hlen;
    try done; [lia|].
  rewrite string_app_cons. simpl.
  destruct (decide (a = b)); [|done]. apply IH. lia.
Qed.

Lemma startsWith_self p t : startsWith p (p +:+ t) = true.
Proof.
  induction p as [|a p IH]; [done|]. rewrite string_app_cons. simpl.
  by rewrite decide_True.
Qed.

Lemma drop_chars_app p t : drop_chars (String.length p) (p +:+ t) = t.
Proof. induction p as [|a p IH]; [done|]. by rewrite string_app_cons. Qed.

Lemma before_first_absent sep s : includes sep s = false → before_first sep s = s.
Proof.
  induction s as [|c s IH]; simpl.
  - by destruct (startsWith sep "").
  - destruct (startsWith sep (String c s)); [done|].
    intros H. by rewrite IH.
Qed.

(** With [sep = init ++ [last]]: when the first occurrence of [sep] in
    [base ++ sep ++ rest] is the one written out, what follows it is
    [rest]. *)
Lemma after_first_unfold sep s :
  after_first sep s =
  if startsWith sep s then Some (drop_chars (String.length sep) s)
  else match s with
       | EmptyString => None
       | String _ s' => after_first sep s'
       end.
Proof. by destruct s. Qed.

Lemma after_first_app init last base rest :
  includes (init +:+ String last "") (base +:+ init) = false →
  after_first (init +:+ String last "") (base +:+ (init +:+ String last "") +:+ rest)
  = Some rest.
Proof.
  set (sep := init +:+ String last "").
  assert (String.length sep = S (String.length init)) as Hlen
    by (unfold sep; rewrite string_app_length; simpl; lia).
  induction base as [|c base IH]; intros Hno.
  - rewrite string_app_nil, after_first_unfold, startsWith_self.
    by rewrite drop_chars_app.
  - rewrite string_app_cons in Hno |- *.
    cbn [includes] in Hno.
    destruct (startsWith sep (String c (base +:+ init))) eqn:Hstart; [done|].
    rewrite after_first_unfold.
    assert (String c (base +:+ sep +:+ rest)
            = String c (base +:+ init) +:+ (String last "" +:+ rest)) as Heq.
    { rewrite string_app_cons. f_equal. unfold sep.
      by rewrite !string_app_assoc. }
    rewrite Heq at 1.
    rewrite startsWith_app_long, Hstart.
    2:{ rewrite Hlen. simpl. rewrite string_app_length. lia. }
    by apply IH.
Qed.

(** [s.split(sep)[1]] gives back what was written after the separator. *)
Lemma split_1_app init last base rest :
  includes (init +:+ String last "") (base +:+ init) = false →
  includes (init +:+ String last "") rest = false →
  split_1 (init +:+ String last "") (base +:+ (init +:+ String last "") +:+ rest)
  = Some rest.
Proof.
  intros Hbase Hrest. unfold split_1.
  rewrite after_first_app by done. simpl.
  by rewrite before_first_absent.
Qed.

Lemma split_1_absent sep s : includes sep s = false → split_1 sep s = None.
Proof.
  unfold split_1. intros H.
  assert (after_first sep s = None) as ->; [|done].
  induction s as [|c s IH]; simpl in *.
  - by destruct (startsWith sep "").
  - destruct (startsWith sep (String c s)); [done|]. by apply IH.
Qed.

Lemma parse_digits_linear s : ∀ acc,
  parse_digits acc s = acc * 10 ^ Z.of_nat (String.length s) + parse_digits 0 s.
Proof.
  induction s as [|c s IH]; intros acc; simpl String.length; cbn [parse_digits].
  - change (Z.of_nat 0) with 0. rewrite Z.pow_0_r. lia.
  - rewrite (IH (10 * acc + digit_value c)), (IH (10 * 0 + digit_value c)).
    rewrite Nat2Z.inj_succ, Z.pow_succ_r by lia. lia.
Qed.

Lemma digit_value_pretty d : (d < 10)%N → digit_value (pretty_N_char d) = Z.of_N d.
Proof.
  intros Hd.
  assert (d = 0 ∨ d = 1 ∨ d = 2 ∨ d = 3 ∨ d = 4 ∨ d = 5 ∨ d = 6 ∨ d = 7
          ∨ d = 8 ∨ d = 9)%N as H by lia.
  repeat (destruct H as [->|H]; [done|]). by subst.
Qed.

Lemma is_digit_pretty d : is_digit (pretty_N_char d) = true.
Proof.
  unfold pretty_N_char.
  repeat (match goal with
          | |- context [match ?x with _ => _ end] => destruct x
          end; try done).
Qed.

Lemma parse_pretty_N_go x : ∀ s,
  parse_digits 0 (pretty_N_go x s)
  = Z.of_N x * 10 ^ Z.of_nat (String.length s) + parse_digits 0 s.
Proof.
  induction (N.lt_wf_0 x) as [x _ IH]; intros s.
  destruct (decide (x = 0)%N) as [->|Hx].
  - rewrite pretty_N_go_0. lia.
  - rewrite pretty_N_go_step by lia.
    rewrite IH by (apply N.div_lt; lia).
    simpl String.length. cbn [parse_digits].
    rewrite (parse_digits_linear s (10 * 0 + _)).
    rewrite digit_value_pretty by (apply N.mod_lt; lia).
    rewrite Nat2Z.inj_succ, Z.pow_succ_r by lia.
    rewrite N2Z.inj_div, N2Z.inj_mod.
    pose proof (Z.div_mod (Z.of_N x) 10). change (Z.of_N 10) with 10. nia.
Qed.

Lemma all_digits_pretty_N_go x : ∀ s,
  all_digits s = true → all_digits (pretty_N_go x s) = true.
Proof.
  induction (N.lt_wf_0 x) as [x _ IH]; intros s Hs.
  destruct (decide (x = 0)%N) as [->|Hx].
  - by rewrite pretty_N_go_0.
  - rewrite pretty_N_go_step by lia. apply IH; [apply N.div_lt; lia|].
    simpl. by rewrite is_digit_pretty.
Qed.

Lemma pretty_N_go_nonempty x : ∀ s, (0 < x)%N → pretty_N_go x s ≠ "".
Proof.
  induction (N.lt_wf_0 x) as [x _ IH]; intros s Hx.
  rewrite pretty_N_go_step by done.
  destruct (decide (x `div` 10 = 0)%N) as [->|Hd].
  - by rewrite pretty_N_go_0.
  - apply IH.
    + apply N.div_lt; lia.
    + apply N.neq_0_lt_0. exact Hd.
Qed.

(** Decimal digits written, decimal digits read - as long as a double
    holds the number. *)
Lemma parseInt_pretty n :
  0 ≤ n ≤ 2 ^ 53 →
  parseInt (pretty n) = Exact n
  ∧ all_digits (pretty n) = true
  ∧ pretty n ≠ "".
Proof.
  intros Hn. destruct n as [|p|p]; [done| |lia].
  unfold pretty, pretty_Z, pretty, pretty_positive, pretty, pretty_N.
  rewrite decide_False by done. unfold parseInt.
  assert (parse_digits 0 (pretty_N_go (N.pos p) "") = Z.pos p) as ->
    by (rewrite parse_pretty_N_go; simpl; lia).
  split; [|split].
  - assert ((Z.pos p <=? two_53) = true) as ->; [|done].
    apply Z.leb_le. unfold two_53. lia.
  - by apply all_digits_pretty_N_go.
  - by apply pretty_N_go_nonempty.
Qed.

(** Beyond that, [parseInt] gives some double near the number written. *)
Lemma parseInt_rounds n :
  2 ^ 53 < n → parseInt (pretty n) = Rounded (pretty n).
Proof.
  intros Hn. destruct n as [|p|p]; [done| |lia].
  unfold pretty at 1, pretty_Z, pretty, pretty_positive, pretty, pretty_N.
  rewrite decide_False by done. unfold parseInt.
  assert (parse_digits 0 (pretty_N_go (N.pos p) "") = Z.pos p) as ->
    by (rewrite parse_pretty_N_go; simpl; lia).
  assert ((Z.pos p <=? two_53) = false) as ->; [|done].
  apply Z.leb_gt. unfold two_53. lia.
Qed.

Lemma take_digits_all s : all_digits s = true → take_digits s = s.
Proof.
  induction s as [|c s IH]; simpl; [done|].
  intros [Hc Hs]%andb_prop. by rewrite Hc, IH.
Qed.

(** The first run of digits of a text that holds its only digits at its
    end is that end. *)
Lemma match_digits_label label digits :
  has_digit label = false →
  all_digits digits = true → digits ≠ "" →
  match_digits (label +:+ digits) = Some digits.
Proof.
  intros Hlabel Hd Hne. induction label as [|c label IH]; simpl in *.
  - destruct digits as [|d digits]; [done|]. simpl in *.
    apply andb_prop in Hd as [Hd1 Hd2]. rewrite Hd1.
    by rewrite take_digits_all.
  - apply orb_false_elim in Hlabel as [Hc Hl]. rewrite Hc. by apply IH.
Qed.




Lemma strict_eq_str_true v lit : strict_eq_str v lit = true ↔ v = JStr lit.
Proof.
  destruct v; simpl; try (split; [done | intros [=]]).
  rewrite String.eqb_eq. split; [by intros -> | by intros [= ->]].
Qed.

End JSFacts.

(* ===================================================================== *)
(** ** The client                                                        *)
(* ===================================================================== *)

Module ClientFacts.
Import JS Client JSFacts.
Local Open Scope Z_scope.

(** *** Reading the cart *)

(** The accumulator of the [forEach] only ever grows at its end. *)
Lemma forEach_rows_acc rows : ∀ acc,
  forEach_rows rows acc =
  match forEach_rows rows [] with
  | Ok tail => Ok (acc ++ tail)
  | Throw m => Throw m
  end.
Proof.
  induction rows as [|row rows IH]; intros acc; simpl.
  - by rewrite app_nil_r.
  - destruct (cart_item_of_row row) as [[item|]|m]; [| apply IH | done].
    rewrite (IH (acc ++ [item])), (IH [item]).
    destruct (forEach_rows rows []); [|done].
    by rewrite <- app_assoc.
Qed.

Lemma getCartItemsFromPage_cons row rows :
  getCartItemsFromPage (row :: rows) =
  match cart_item_of_row row with
  | Throw m => Throw m
  | Ok None => getCartItemsFromPage rows
  | Ok (Some item) =>
      match getCartItemsFromPage rows with
      | Ok tail => Ok (item :: tail)
      | Throw m => Throw m
      end
  end.
Proof.
  unfold getCartItemsFromPage. simpl.
  destruct (cart_item_of_row row) as [[item|]|m]; try done.
  by rewrite forEach_rows_acc.
Qed.

(** C10.  In a browser the claim fails on every cart page that shows an
    item.  [querySelector] raises a [SyntaxError] on
    [.col:contains("Quantity:")], which is no selector of the standard;
    so on the first row that holds a product link the callback throws at
    line 215, [getCartItemsFromPage] returns no item at all - neither a
    parsed quantity nor the default [1] - and [generateImage], which reads
    the cart before its [try], dies without submitting anything.  Here
    for a page with one row, which links to a product. *)
Theorem getCartItemsFromPage_throws_on_linked_row :
  let row := {| product_link := Some "https://shop.example/product/OLJCESPC7Z";
                quantity_col := QInvalidSelector |} in
  getCartItemsFromPage [row] = Throw "SyntaxError: not a valid selector"
  ∧ ∀ now st,
      generateImage [row] now st
      = (st, [EUncaught "SyntaxError: not a valid selector"]).
Proof. split; [reflexivity|]. intros now st. reflexivity. Qed.

(** *** The empty cart and the rejected file *)

Lemma deliver_no_requests {Srv} (serve : request → Srv → Srv * FetchOutcome)
    effs srv :
  requests effs = [] → deliver serve effs srv = srv.
Proof. unfold deliver. by intros ->. Qed.

(** C5.  When the cart read from the page is empty, [generateImage] only
    alerts and returns: the state is untouched, no request leaves the
    page, and so whatever the service is, its state - its Jobs and the
    identifiers it has issued - stays as it was. *)
Theorem generateImage_empty_cart_sends_nothing
    {Srv} (serve : request → Srv → Srv * FetchOutcome) (srv : Srv)
    itemRows now st :
  getCartItemsFromPage itemRows = Ok [] →
  generateImage itemRows now st =
    (st, [EAlert "Your cart is empty. Please add some items before generating an image."])
  ∧ requests (generateImage itemRows now st).2 = []
  ∧ deliver serve (generateImage itemRows now st).2 srv = srv.
Proof.
  intros Hcart.
  assert (generateImage itemRows now st =
    (st, [EAlert "Your cart is empty. Please add some items before generating an image."])) as Heq
    by (unfold generateImage; by rewrite Hcart).
  rewrite Heq. by repeat split.
Qed.

Lemma generateImage_empty_cart_sends_nothing_witness :
  let rows := [ {| product_link := None; quantity_col := QNoMatch |} ] in
  let st := initial ∅ in
  let count_requests := λ (_ : request) (n : nat), (S n, Threw "unreachable") in
  getCartItemsFromPage rows = Ok []
  ∧ generateImage rows 1700000000000 st =
      (st, [EAlert "Your cart is empty. Please add some items before generating an image."])
  ∧ requests (generateImage rows 1700000000000 st).2 = []
  ∧ deliver count_requests (generateImage rows 1700000000000 st).2 0%nat = 0%nat.
Proof.
  split; [reflexivity|].
  apply (generateImage_empty_cart_sends_nothing _ 0%nat). reflexivity.
Defined.






(** *** Polling *)

Lemma requests_cons e effs :
  requests (e :: effs) =
  match e with EFetch r => r :: requests effs | _ => requests effs end.
Proof. by destruct e. Qed.

Lemma timers_cons e effs :
  timers (e :: effs) =
  match e with
  | ESetTimeout cb ms => (cb, ms) :: timers effs
  | _ => timers effs
  end.
Proof. by destruct e. Qed.

Lemma pollGenerationStatus_settled_processing result st :
  field result "status" = JStr "processing" →
  pollGenerationStatus_settled (Json result) st =
    ((updateProgress (js_or (field result "progress") (JNum 0)) st).1,
     [ESetTimeout PollGenerationStatus 2000]).
Proof. intros H. unfold pollGenerationStatus_settled. by rewrite H. Qed.

Lemma pollGenerationStatus_settled_completed result st :
  field result "status" = JStr "completed" →
  (pollGenerationStatus_settled (Json result) st).2 = [].
Proof. intros H. unfold pollGenerationStatus_settled. by rewrite H. Qed.

Lemma pollGenerationStatus_settled_failed result st :
  field result "status" = JStr "failed" →
  (pollGenerationStatus_settled (Json result) st).2 =
    [EAlert ("Error checking generation status: " +:+
             ToString (js_or (field result "error_message")
                             (JStr "Image generation failed")))]
  ∧ currentGenerationId (pollGenerationStatus_settled (Json result) st).1 = JNull.
Proof. intros H. unfold pollGenerationStatus_settled. by rewrite H. Qed.

(** A reply whose status is none of the three the function tests leaves
    no trace but the progress bar. *)
Lemma pollGenerationStatus_settled_other result st :
  field result "status" ≠ JStr "completed" →
  field result "status" ≠ JStr "failed" →
  field result "status" ≠ JStr "processing" →
  pollGenerationStatus_settled (Json result) st =
    updateProgress (js_or (field result "progress") (JNum 0)) st.
Proof.
  intros H1 H2 H3. unfold pollGenerationStatus_settled.
  destruct (strict_eq_str _ "completed") eqn:E1;
    [by apply strict_eq_str_true in E1|].
  destruct (strict_eq_str _ "failed") eqn:E2;
    [by apply strict_eq_str_true in E2|].
  destruct (strict_eq_str _ "processing") eqn:E3;
    [by apply strict_eq_str_true in E3|].
  done.
Qed.

Lemma pollLoop_cons reply later st :
  truthy (currentGenerationId st) = true →
  pollLoop (reply :: later) st =
    let '(st2, settled) := pollGenerationStatus_settled reply st in
    let sent := EFetch (StatusReq (ToString (currentGenerationId st))) in
    if rearmed settled then
      let '(st3, more) := pollLoop later st2 in (st3, sent :: settled ++ more)
    else (st2, sent :: settled).
Proof.
  intros Hid. cbn [pollLoop]. unfold pollGenerationStatus at 1.
  by rewrite Hid.
Qed.

Lemma pollLoop_processing result later st :
  truthy (currentGenerationId st) = true →
  field result "status" = JStr "processing" →
  (pollLoop (Json result :: later) st).2 =
    EFetch (StatusReq (ToString (currentGenerationId st))) ::
    ESetTimeout PollGenerationStatus 2000 ::
    (pollLoop later
       (updateProgress (js_or (field result "progress") (JNum 0)) st).1).2.
Proof.
  intros Hid Hst.
  rewrite pollLoop_cons, pollGenerationStatus_settled_processing by done.
  cbn [rearmed existsb orb]. by destruct (pollLoop later _).
Qed.

Lemma pollLoop_terminal reply later st :
  truthy (currentGenerationId st) = true →
  replies_with "completed" reply ∨ replies_with "failed" reply →
  requests (pollLoop (reply :: later) st).2 =
    [StatusReq (ToString (currentGenerationId st))]
  ∧ timers (pollLoop (reply :: later) st).2 = [].
Proof.
  intros Hid [(result & -> & Hst) | (result & -> & Hst)];
    rewrite pollLoop_cons by done;
    unfold pollGenerationStatus_settled; rewrite Hst; done.
Qed.

(** C8.  In a run of the status loop that sees [n] replies of status
    ["processing"] and then one of status ["completed"] or ["failed"],
    each of the [n] replies sets exactly one timer, for
    [pollGenerationStatus] in 2000 ms, and nothing else; the terminal
    reply sets none.  The whole run sends [n + 1] status requests, all for
    the current generation, and sets [n] timers - whatever replies might
    have followed are never asked for. *)
Theorem pollLoop_polls_until_terminal processing_replies last later st :
  truthy (currentGenerationId st) = true →
  Forall (replies_with "processing") processing_replies →
  replies_with "completed" last ∨ replies_with "failed" last →
  Forall (λ reply, ∀ st',
            (pollGenerationStatus_settled reply st').2 =
              [ESetTimeout PollGenerationStatus 2000]) processing_replies
  ∧ (∀ st', timers (pollGenerationStatus_settled last st').2 = [])
  ∧ requests (pollLoop (processing_replies ++ last :: later) st).2 =
      replicate (S (length processing_replies))
                (StatusReq (ToString (currentGenerationId st)))
  ∧ timers (pollLoop (processing_replies ++ last :: later) st).2 =
      replicate (length processing_replies) (PollGenerationStatus, 2000).
Proof.
  intros Hid Hproc Hlast. split; [|split].
  - eapply Forall_impl; [exact Hproc|].
    intros reply (result & -> & Hst) st'.
    by rewrite pollGenerationStatus_settled_processing.
  - intros st'.
    destruct Hlast as [(result & -> & Hst) | (result & -> & Hst)];
      unfold pollGenerationStatus_settled; by rewrite Hst.
  - revert st Hid.
    induction Hproc as [|reply rest (result & -> & Hst) _ IH]; intros st Hid.
    + by apply pollLoop_terminal.
    + rewrite <- app_comm_cons, pollLoop_processing by done.
      destruct (IH (updateProgress
                      (js_or (field result "progress") (JNum 0)) st).1 Hid)
        as [Hreq Htim].
      rewrite !requests_cons, !timers_cons, Hreq, Htim. done.
Qed.

Lemma pollLoop_polls_until_terminal_witness :
  let st := set_currentGenerationId (JStr "7f3a") (initial ∅) in
  let processing n :=
    Json {[ "status" := JStr "processing"; "progress" := JNum n ]} in
  let completed :=
    Json {[ "status" := JStr "completed"; "progress" := JNum 100;
            "image_url" := JStr "https://storage.example/7f3a.jpg" ]} in
  let replies := [processing 10; processing 60] in
  Forall (λ reply, ∀ st',
            (pollGenerationStatus_settled reply st').2 =
              [ESetTimeout PollGenerationStatus 2000]) replies
  ∧ (∀ st', timers (pollGenerationStatus_settled completed st').2 = [])
  ∧ requests (pollLoop (replies ++ completed :: [processing 70]) st).2 =
      replicate 3 (StatusReq "7f3a")
  ∧ timers (pollLoop (replies ++ completed :: [processing 70]) st).2 =
      replicate 2 (PollGenerationStatus, 2000).
Proof.
  apply (pollLoop_polls_until_terminal
           [Json {[ "status" := JStr "processing"; "progress" := JNum 10 ]};
            Json {[ "status" := JStr "processing"; "progress" := JNum 60 ]}]).
  - reflexivity.
  - repeat constructor; eexists; (split; [reflexivity | vm_compute; reflexivity]).
  - left. eexists. split; [reflexivity | vm_compute; reflexivity].
Defined.

(** C4, on the code.  With a generation under way, a reply of status
    ["not_found"] moves the progress bar and does nothing else: no alert,
    no reset of the form, the generation identifier stays and the progress
    panel stays up.  The same state on a reply of status ["failed"]
    alerts and resets the form. *)
Theorem pollGenerationStatus_not_found_is_silent :
  let st :=
    {| currentGenerationId := JStr "7f3a";
       uploadedBackgroundUrl := JNull;
       uploadedBackgroundData := JNull;
       dom := {[ "generationProgress.style.display" := "block";
                 ".image-generation-form.style.display" := "none" ]} |} in
  let not_found := pollGenerationStatus_settled
                     (Json {[ "status" := JStr "not_found" ]}) st in
  let failed := pollGenerationStatus_settled
                  (Json {[ "status" := JStr "failed" ]}) st in
  not_found.2 = []
  ∧ currentGenerationId not_found.1 = JStr "7f3a"
  ∧ dom_value "generationProgress.style.display" not_found.1 = "block"
  ∧ dom_value ".image-generation-form.style.display" not_found.1 = "none"
  ∧ failed.2 = [EAlert "Error checking generation status: Image generation failed"]
  ∧ currentGenerationId failed.1 = JNull
  ∧ dom_value "generationProgress.style.display" failed.1 = "none"
  ∧ dom_value ".image-generation-form.style.display" failed.1 = "block".
Proof. vm_compute. repeat split. Qed.

(** *** The uploaded background *)

Lemma removeBackground_clears st :
  uploadedBackgroundUrl (removeBackground st).1 = JNull
  ∧ uploadedBackgroundData (removeBackground st).1 = JNull.
Proof. done. Qed.

Lemma resetImageGenerationForm_clears st :
  uploadedBackgroundUrl (resetImageGenerationForm st).1 = JNull.
Proof. done. Qed.

(** Line 131 is the only assignment of anything but [null] to
    [uploadedBackgroundUrl]: every other entry point of the script leaves
    a [null] there. *)
Lemma step_keeps_no_background ev st :
  is_successful_upload ev = false →
  uploadedBackgroundUrl st = JNull →
  uploadedBackgroundUrl (step ev st).1 = JNull.
Proof.
  intros Hev Hst. destruct ev; cbn [step]; try done.
  - unfold escape_keydown. by destruct (String.eqb _ _).
  - unfold handleBackgroundUpload. destruct file as [f|]; [|done].
    destruct (negb _); [done|]. by destruct (_ <? _)%N.
  - destruct o as [result|m]; [|done]. cbn in Hev |- *.
    by rewrite Hev.
  - unfold generateImage. destruct (getCartItemsFromPage _); [|done].
    by destruct (_ =? _)%nat.
  - unfold generateImage_settled. destruct o as [result|m]; [|done].
    destruct (strict_eq_str (field result "status") "completed"); [done|].
    destruct (strict_eq_str (field result "status") "processing"); [|done].
    cbn. unfold pollGenerationStatus. by destruct (truthy _).
  - unfold pollGenerationStatus. by destruct (truthy _).
  - unfold pollGenerationStatus_settled. destruct o as [result|m]; [|done].
    destruct (strict_eq_str (field result "status") "completed"); [done|].
    destruct (strict_eq_str (field result "status") "failed"); [done|].
    by destruct (strict_eq_str (field result "status") "processing").
  - unfold downloadImage. by destruct (String.eqb _ _).
Qed.

Lemma client_run_cons ev evs st :
  (run (ev :: evs) st).1 = (run evs (step ev st).1).1.
Proof.
  cbn [run]. unfold seq. destruct (step ev st) as [st1 e1]. cbn [fst].
  by destruct (run evs st1).
Qed.

Lemma run_keeps_no_background evs : ∀ st,
  Forall (λ ev, is_successful_upload ev = false) evs →
  uploadedBackgroundUrl st = JNull →
  uploadedBackgroundUrl (run evs st).1 = JNull.
Proof.
  induction evs as [|ev evs IH]; intros st Hevs Hst; [done|].
  apply Forall_cons in Hevs as [Hev Hevs]. rewrite client_run_cons.
  by apply IH, step_keeps_no_background.
Qed.

Lemma generateImage_background itemRows now st body :
  EFetch (GenerateImageReq body) ∈ (generateImage itemRows now st).2 →
  background_image_url body = js_or (uploadedBackgroundUrl st) (JStr "").
Proof.
  unfold generateImage. destruct (getCartItemsFromPage _) as [items|m].
  - destruct (_ =? _)%nat; cbn.
    + by intros [=]%list_elem_of_singleton.
    + by intros [= ->]%list_elem_of_singleton.
  - by intros [=]%list_elem_of_singleton.
Qed.

(** C9.  When an upload settles otherwise than with status ["success"] -
    another status, or a thrown request - both [uploadedBackgroundUrl]
    and [uploadedBackgroundData] are [null] afterwards.  From there on,
    as long as no upload succeeds, whatever else happens on the page, a
    [generateImage] sends the empty string as [background_image_url].
    And from the script's start, only a successful upload makes
    [uploadedBackgroundUrl] anything but [null]. *)
Theorem failed_upload_clears_background o st :
  upload_succeeded o = false →
  uploadedBackgroundUrl (uploadBackgroundToServer_settled o st).1 = JNull
  ∧ uploadedBackgroundData (uploadBackgroundToServer_settled o st).1 = JNull
  ∧ (∀ evs itemRows now body,
       Forall (λ ev, is_successful_upload ev = false) evs →
       EFetch (GenerateImageReq body) ∈
         (generateImage itemRows now
            (run evs (uploadBackgroundToServer_settled o st).1).1).2 →
       background_image_url body = JStr "")
  ∧ (∀ page evs,
       Forall (λ ev, is_successful_upload ev = false) evs →
       uploadedBackgroundUrl (run evs (initial page)).1 = JNull).
Proof.
  intros Ho.
  assert (uploadedBackgroundUrl (uploadBackgroundToServer_settled o st).1 = JNull
          ∧ uploadedBackgroundData (uploadBackgroundToServer_settled o st).1 = JNull)
    as [Hurl Hdata].
  { destruct o as [result|m]; [|done]. cbn in Ho |- *. by rewrite Ho. }
  split; [done|]. split; [done|]. split.
  - intros evs itemRows now body Hevs Hin.
    apply generateImage_background in Hin.
    by rewrite Hin, run_keeps_no_background.
  - intros page evs Hevs. by apply run_keeps_no_background.
Qed.

Lemma failed_upload_clears_background_witness :
  let st :=
    {| currentGenerationId := JNull;
       uploadedBackgroundUrl := JStr "https://storage.example/old.png";
       uploadedBackgroundData := JStr "iVBORw0KGgo=";
       dom := ∅ |} in
  let o := Json {[ "status" := JStr "failed";
                   "error_message" := JStr "payload exceeds 10 MiB" ]} in
  let rows := [ {| product_link := Some "https://shop.example/product/OLJCESPC7Z";
                   quantity_col := QNoMatch |} ] in
  upload_succeeded o = false
  ∧ uploadedBackgroundUrl (uploadBackgroundToServer_settled o st).1 = JNull
  ∧ uploadedBackgroundData (uploadBackgroundToServer_settled o st).1 = JNull
  ∧ requests (generateImage rows 1700000000000
                (uploadBackgroundToServer_settled o st).1).2 =
      [GenerateImageReq
         {| user_id := "user_1700000000000";
            style_preference := "";
            background_image_url := JStr "";
            cart_items := [ {| product_id := JStr "OLJCESPC7Z"; quantity := 1 |} ] |}].
Proof.
  pose proof (failed_upload_clears_background
    (Json {[ "status" := JStr "failed";
             "error_message" := JStr "payload exceeds 10 MiB" ]})
    {| currentGenerationId := JNull;
       uploadedBackgroundUrl := JStr "https://storage.example/old.png";
       uploadedBackgroundData := JStr "iVBORw0KGgo=";
       dom := ∅ |}) as H.
  assert (upload_succeeded
            (Json {[ "status" := JStr "failed";
                     "error_message" := JStr "payload exceeds 10 MiB" ]}) = false)
    as Ho by (vm_compute; reflexivity).
  destruct (H Ho) as (Hurl & Hdata & _).
  split; [exact Ho|]. split; [exact Hurl|]. split; [exact Hdata|].
  vm_compute. reflexivity.
Defined.

(** *** The reply to a submission *)

(** A reply of status ["processing"] stores the identifier it carries and
    starts the status loop; nothing is shown to the user yet. *)
Lemma generateImage_settled_processing result st :
  field result "status" = JStr "processing" →
  generateImage_settled (Json result) st =
    pollGenerationStatus
      (set_currentGenerationId (field result "generation_id") st).
Proof.
  intros H. unfold generateImage_settled. rewrite H. cbn.
  by destruct (pollGenerationStatus _).
Qed.

(** A page without product links has an empty cart. *)
Lemma getCartItemsFromPage_no_links itemRows :
  Forall (λ row, product_link row = None) itemRows →
  getCartItemsFromPage itemRows = Ok [].
Proof.
  induction 1 as [|row rows Hrow _ IH]; [done|].
  rewrite getCartItemsFromPage_cons. unfold cart_item_of_row.
  by rewrite Hrow.
Qed.

End ClientFacts.

(* ===================================================================== *)
(** ** The job lifecycle                                                  *)
(* ===================================================================== *)

Module ServiceFacts.
Import Service.
Local Open Scope Z_scope.

(** *** The Job Store *)

Lemma update_terminal id p (jobs : gmap string Job) j :
  jobs !! id = Some j →
  terminal (job_status j) = true →
  update id p jobs = (jobs, AlreadyTerminal).
Proof. intros Hj Ht. unfold update. by rewrite Hj, Ht. Qed.

Lemma update_unknown id p (jobs : gmap string Job) :
  jobs !! id = None → update id p jobs = (jobs, UnknownId).
Proof. intros Hj. unfold update. by rewrite Hj. Qed.

Lemma update_cases id p (jobs : gmap string Job) k :
  (update id p jobs).1 !! k = jobs !! k
  ∨ (k = id ∧ ∃ j, jobs !! id = Some j ∧ job_status j = processing
              ∧ (update id p jobs).1 !! k = Some (merge p j)).
Proof.
  unfold update. destruct (jobs !! id) as [j|] eqn:Hj; [|by left].
  destruct (job_status j) eqn:Hs; simpl; [|by left|by left].
  destruct (decide (k = id)) as [->|Hne].
  - right. split; [done|]. exists j. by rewrite lookup_insert_eq.
  - left. by rewrite lookup_insert_ne.
Qed.

Lemma create_fresh now (jobs : gmap string Job) :
  jobs !! (create now jobs).1 = None.
Proof. apply not_elem_of_dom, is_fresh. Qed.

Lemma create_lookup now (jobs : gmap string Job) k :
  (create now jobs).2 !! k =
  if decide (k = (create now jobs).1)
  then Some (new_job (create now jobs).1 now)
  else jobs !! k.
Proof.
  unfold create. simpl. case_decide as Hk.
  - subst k. by rewrite lookup_insert_eq.
  - by rewrite lookup_insert_ne.
Qed.

Lemma create_dom now (jobs : gmap string Job) :
  dom (create now jobs).2 = {[ (create now jobs).1 ]} ∪ dom jobs.
Proof. unfold create. simpl. by rewrite dom_insert_L. Qed.

Lemma update_dom id p (jobs : gmap string Job) :
  dom (update id p jobs).1 = dom jobs.
Proof.
  unfold update. destruct (jobs !! id) as [j|] eqn:Hj; [|done].
  destruct (terminal _); [done|]. simpl.
  by apply dom_insert_lookup_L.
Qed.

Section Lifecycle.
Context {Storage : Type}.
Variable lookup_product : string → option Product.
Variable generate_image : GenerationRequest → generated.
Variable put_object : string → Storage → option (string * Storage).
Variable decode_image : string → option string.

Abbreviation process := (process lookup_product generate_image put_object).
Abbreviation exec := (exec lookup_product generate_image put_object decode_image).
Abbreviation run := (run lookup_product generate_image put_object decode_image).
Abbreviation status_step := (status_step put_object).

Implicit Types (srv : @Server Storage) (o : op) (id : string).

Lemma GetStatus_store id srv srv' :
  store srv !! id = store srv' !! id → GetStatus id srv = GetStatus id srv'.
Proof. unfold GetStatus, get. by intros ->. Qed.

(** What an [update] by one of the Worker's three patches does to the
    answer of [GetStatus]. *)
Lemma update_status_step id o k p srv srv' :
  store srv' = (update k p (store srv)).1 →
  (∃ n, o = Progress k n ∧ p = progress_patch n)
  ∨ (∃ f, p = failed_patch f)
  ∨ (∃ bytes url s', put_object bytes (storage srv) = Some (url, s')
                     ∧ p = completed_patch url) →
  status_step id o (GetStatus id srv) (GetStatus id srv').
Proof.
  intros Hst Hp.
  destruct (update_cases k p (store srv) id)
    as [Hsame | (Heq & j & Hj & Hs & Hnew)]; [|subst k].
  - rewrite (GetStatus_store id srv' srv) by (by rewrite Hst).
    constructor.
  - assert (GetStatus id srv =
              {| reply_status := Stored processing;
                 reply_image_url := image_url j;
                 reply_progress := progress j;
                 reply_error_message := error_message j |}) as Hg
      by (unfold GetStatus, get; by rewrite Hj, Hs).
    assert (reply_status (GetStatus id srv) = Stored processing) as Hlive
      by (by rewrite Hg).
    unfold GetStatus at 2, get. rewrite Hst, Hnew.
    destruct Hp as [(n & -> & ->) | [(f & ->) | (bytes & url & s' & Hput & ->)]];
      simpl; rewrite ?Hs; simpl.
    + replace (image_url j) with (reply_image_url (GetStatus id srv))
        by (by rewrite Hg).
      replace (error_message j) with (reply_error_message (GetStatus id srv))
        by (by rewrite Hg).
      by eapply step_progress.
    + replace (image_url j) with (reply_image_url (GetStatus id srv))
        by (by rewrite Hg).
      replace (progress j) with (reply_progress (GetStatus id srv))
        by (by rewrite Hg).
      by apply step_failed.
    + replace (error_message j) with (reply_error_message (GetStatus id srv))
        by (by rewrite Hg).
      by eapply step_completed.
Qed.

Lemma process_status_step id o k t srv :
  status_step id o (GetStatus id srv) (GetStatus id (process k t srv).1).
Proof.
  unfold process.
  destruct (resolve_cart _ _) as [products|].
  2:{ destruct (update k _ (store srv)) as [jobs r] eqn:Hu.
      eapply (update_status_step id o k (failed_patch ProductUnavailable));
        [simpl; by rewrite Hu | eauto]. }
  destruct (generate_image _) as [bytes|raw].
  2:{ destruct (update k _ (store srv)) as [jobs r] eqn:Hu.
      eapply (update_status_step id o k (failed_patch GenerationFailed));
        [simpl; by rewrite Hu | eauto]. }
  destruct (put_object bytes (storage srv)) as [[url s']|] eqn:Hput.
  2:{ destruct (update k _ (store srv)) as [jobs r] eqn:Hu.
      eapply (update_status_step id o k (failed_patch StorageUnavailable));
        [simpl; by rewrite Hu | eauto]. }
  destruct (update k _ (store srv)) as [jobs r] eqn:Hu.
  eapply (update_status_step id o k (completed_patch url));
    [simpl; by rewrite Hu | right; right; eauto].
Qed.

(** Every operation of the service moves the answer of [GetStatus id]
    by one [status_step]. *)
Lemma exec_status_step id o srv :
  status_step id o (GetStatus id srv) (GetStatus id (exec o srv).1).
Proof.
  destruct o as [req now|image_data|k|k n|k]; simpl.
  - unfold SubmitGeneration. destruct (req_cart_items req); [constructor|].
    destruct (create now (store srv)) as [k jobs] eqn:Hc. simpl.
    pose proof (create_lookup now (store srv) id) as Hl.
    pose proof (create_fresh now (store srv)) as Hf.
    rewrite Hc in Hl, Hf. simpl in Hl, Hf.
    unfold GetStatus, get. simpl. rewrite Hl.
    case_decide as Hk; [|constructor].
    subst k. rewrite Hf. simpl. by apply step_created.
  - unfold UploadBackground. destruct (decode_image _); [|constructor].
    destruct (_ <? _)%N; [constructor|].
    destruct (put_object _ _) as [[url s']|]; constructor.
  - constructor.
  - destruct (update k _ (store srv)) as [jobs r] eqn:Hu.
    eapply (update_status_step id _ k (progress_patch n));
      [simpl; by rewrite Hu | eauto].
  - destruct (dispatched srv !! k) as [t|]; [|constructor].
    pose proof (process_status_step id (Work k) k t srv) as H.
    destruct (process k t srv) as [srv' r]. simpl in *.
    erewrite GetStatus_store; [exact H | done].
Qed.

(** *** Runs *)

Lemma service_run_cons o ops srv :
  run (o :: ops) srv =
  ((run ops (exec o srv).1).1,
   (o, (exec o srv).2) :: (run ops (exec o srv).1).2).
Proof.
  cbn [Service.run]. destruct (exec o srv) as [srv1 r]. cbn [fst snd].
  by destruct (run ops srv1).
Qed.

Lemma observed_exec id o srv log :
  observed id ((o, (exec o srv).2) :: log) =
  match o with
  | Status k =>
      if decide (k = id) then GetStatus id srv :: observed id log
      else observed id log
  | _ => observed id log
  end.
Proof.
  destruct o as [req now|image_data|k|k n|k]; unfold observed; simpl;
    try done.
  case_decide; by subst.
Qed.

(** *** Terminal states are final *)

Lemma status_step_terminal id o g g' s :
  status_step id o g g' →
  reply_status g = Stored s → terminal s = true → g' = g.
Proof.
  intros Hstep Hs Ht.
  destruct Hstep; [done|congruence| | |];
    rewrite Hs in *; simplify_eq; done.
Qed.

Lemma run_terminal id s ops : ∀ srv,
  reply_status (GetStatus id srv) = Stored s → terminal s = true →
  GetStatus id (run ops srv).1 = GetStatus id srv
  ∧ Forall (λ r, r = GetStatus id srv) (observed id (run ops srv).2).
Proof.
  induction ops as [|o ops IH]; intros srv Hs Ht.
  - split; [done|]. constructor.
  - rewrite service_run_cons. cbn [fst snd]. rewrite observed_exec.
    pose proof (status_step_terminal _ _ _ _ _
                  (exec_status_step id o srv) Hs Ht) as Heq.
    destruct (IH (exec o srv).1) as [H1 H2]; [by rewrite ?Heq..|].
    rewrite Heq in H1, H2. split; [done|].
    destruct o; try done. case_decide; [by constructor|done].
Qed.

Lemma GetStatus_Some id srv j :
  store srv !! id = Some j →
  GetStatus id srv =
    {| reply_status := Stored (job_status j);
       reply_image_url := image_url j;
       reply_progress := progress j;
       reply_error_message := error_message j |}.
Proof. intros Hj. unfold GetStatus, get. by rewrite Hj. Qed.

(** C1.  Once a Job is [completed] or [failed]: the Job Store rejects
    every update to it, whatever the patch, and leaves the store as it
    was; however the service is run from there on, [GetStatus] for that
    identifier answers what it answers now, at the end and at every
    call on the way.  And no single operation moves a stored status
    except from [processing] to [completed] or from [processing] to
    [failed]. *)
Theorem terminal_job_is_final srv id j :
  store srv !! id = Some j →
  terminal (job_status j) = true →
  (∀ p, update id p (store srv) = (store srv, AlreadyTerminal))
  ∧ (∀ ops,
       GetStatus id (run ops srv).1 = GetStatus id srv
       ∧ Forall (λ r, r = GetStatus id srv) (observed id (run ops srv).2))
  ∧ (∀ srv0 o k s s',
       reply_status (GetStatus k srv0) = Stored s →
       reply_status (GetStatus k (exec o srv0).1) = Stored s' →
       s ≠ s' →
       s = processing ∧ (s' = completed ∨ s' = failed)).
Proof.
  intros Hj Ht. split; [|split].
  - intros p. by apply update_terminal with j.
  - intros ops. apply run_terminal with (job_status j); [|done].
    by rewrite (GetStatus_Some id srv j).
  - intros srv0 o k s s' Hs Hs' Hne.
    destruct (exec_status_step k o srv0) as [| |n| |f];
      simpl in Hs'; simplify_eq; try congruence.
    + split; [congruence | by left].
    + split; [congruence | by right].
Qed.

(** *** Exactly one of [image_url] and [error_message] *)

Lemma sanitized_nonempty f : sanitized f ≠ "".
Proof. by destruct f. Qed.

Section Urls.
(** The object store hands out URLs, never the empty string. *)
Hypothesis put_object_url :
  ∀ bytes s url s', put_object bytes s = Some (url, s') → url ≠ "".

Lemma status_step_fields id o g g' :
  status_step id o g g' → fields_agree g → fields_agree g'.
Proof.
  unfold fields_agree.
  intros [|Hs|n _ Hs|bytes s url s' Hput Hs|f Hs]; [done|done|..];
    rewrite Hs; simpl.
  - done.
  - intros [_ He]. split; [by eapply put_object_url | done].
  - intros [Hu _]. split; [done | apply sanitized_nonempty].
Qed.

Lemma run_fields id ops : ∀ srv,
  fields_agree (GetStatus id srv) →
  fields_agree (GetStatus id (run ops srv).1)
  ∧ Forall fields_agree (observed id (run ops srv).2).
Proof.
  induction ops as [|o ops IH]; intros srv Hg.
  - split; [done | constructor].
  - rewrite service_run_cons. cbn [fst snd]. rewrite observed_exec.
    destruct (IH (exec o srv).1) as [H1 H2].
    { eapply status_step_fields; [apply exec_status_step | done]. }
    split; [done|].
    destruct o; try done. case_decide; [by constructor | done].
Qed.

(** C2.  Let the object store hand out no empty URL.  Then, however
    the service is run from its start, a Job in the store
    has both [image_url] and [error_message] empty while
    [processing], a non-empty [image_url] and an empty
    [error_message] when [completed], and an empty [image_url] and a
    non-empty [error_message] when [failed]; every [GetStatus] reply
    on the way shows the same. *)
Theorem terminal_fields_exclusive (s0 : Storage) ops id :
  (∀ j, store (run ops (empty_server s0)).1 !! id = Some j →
        match job_status j with
        | processing => image_url j = "" ∧ error_message j = ""
        | completed => image_url j ≠ "" ∧ error_message j = ""
        | failed => image_url j = "" ∧ error_message j ≠ ""
        end)
  ∧ Forall fields_agree (observed id (run ops (empty_server s0)).2).
Proof.
  destruct (run_fields id ops (empty_server s0)) as [H1 H2]; [done|].
  split; [|done]. intros j Hj.
  rewrite (GetStatus_Some _ _ _ Hj) in H1. unfold fields_agree in H1.
  simpl in H1. by destruct (job_status j).
Qed.
End Urls.

(** *** Identifiers *)

Lemma process_dom k t srv :
  dom (store (process k t srv).1) = dom (store srv).
Proof.
  unfold process.
  repeat match goal with
         | |- context [match ?x with _ => _ end] => destruct x eqn:?
         end; simplify_eq; simpl;
    match goal with
    | H : update ?k ?p ?jobs = (?jobs', _) |- _ =>
        replace jobs' with (update k p jobs).1 by (by rewrite H)
    end; apply update_dom.
Qed.

(** An operation adds to the store exactly the identifier it hands out,
    and that identifier is new. *)
Lemma exec_issued o srv :
  dom (store (exec o srv).1) =
    dom (store srv) ∪ list_to_set (issued [(o, (exec o srv).2)])
  ∧ Forall (λ id, id ∉ dom (store srv)) (issued [(o, (exec o srv).2)])
  ∧ NoDup (issued [(o, (exec o srv).2)]).
Proof.
  assert (∀ X : gset string, X = X ∪ list_to_set []) as Hnil
    by (intros X; simpl; by rewrite (right_id_L ∅ (∪))).
  destruct o as [req now|image_data|k|k n|k]; simpl.
  - unfold SubmitGeneration. destruct (req_cart_items req).
    { simpl. repeat split; [apply Hnil | constructor..]. }
    pose proof (create_dom now (store srv)) as Hd.
    pose proof (create_fresh now (store srv)) as Hf.
    destruct (create now (store srv)) as [id jobs]. simpl in *.
    unfold issued. simpl. split; [|split].
    + rewrite Hd, (right_id_L ∅ (∪)). apply (comm_L (∪)).
    + constructor; [|constructor]. by apply not_elem_of_dom.
    + apply NoDup_singleton.
  - unfold UploadBackground.
    destruct (decode_image _); [|repeat split; [apply Hnil | constructor..]].
    destruct (_ <? _)%N; [repeat split; [apply Hnil | constructor..]|].
    destruct (put_object _ _) as [[url s']|];
      repeat split; (apply Hnil || constructor).
  - repeat split; [apply Hnil | constructor..].
  - pose proof (update_dom k (progress_patch n) (store srv)) as Hd.
    destruct (update k _ (store srv)) as [jobs r]. simpl in *.
    rewrite Hd. repeat split; [apply Hnil | constructor..].
  - destruct (dispatched srv !! k) as [t|];
      [|repeat split; [apply Hnil | constructor..]].
    pose proof (process_dom k t srv) as Hd.
    destruct (process k t srv) as [srv' r]. simpl in *.
    rewrite Hd. repeat split; [apply Hnil | constructor..].
Qed.

Lemma issued_cons e log : issued (e :: log) = issued [e] ++ issued log.
Proof.
  unfold issued. simpl. destruct e as [o []]; done.
Qed.

Lemma run_issued ops : ∀ srv,
  dom (store (run ops srv).1) =
    dom (store srv) ∪ list_to_set (issued (run ops srv).2)
  ∧ Forall (λ id, id ∉ dom (store srv)) (issued (run ops srv).2)
  ∧ NoDup (issued (run ops srv).2).
Proof.
  induction ops as [|o ops IH]; intros srv.
  - simpl. split; [by rewrite (right_id_L ∅ (∪))|]. split; constructor.
  - rewrite service_run_cons. cbn [fst snd]. rewrite issued_cons.
    destruct (exec_issued o srv) as (Hd1 & Hn1 & Hu1).
    destruct (IH (exec o srv).1) as (Hd2 & Hn2 & Hu2).
    split; [|split].
    + rewrite Hd2, Hd1, list_to_set_app_L. by rewrite (assoc_L (∪)).
    + apply Forall_app. split; [done|].
      eapply Forall_impl; [exact Hn2|]. intros id Hid Hin.
      apply Hid. rewrite Hd1. by apply elem_of_union_l.
    + apply NoDup_app. split; [done|]. split; [|done].
      intros id Hin1 Hin2.
      rewrite Forall_forall in Hn2. apply (Hn2 id Hin2).
      rewrite Hd1. apply elem_of_union_r. by apply elem_of_list_to_set.
Qed.

Lemma run_log_submit ops : ∀ srv req now r,
  (Submit req now, r) ∈ (run ops srv).2 →
  (req_cart_items req ≠ [] →
     ∃ id, r = SubmitAccepted id processing ∧ id ∈ issued (run ops srv).2)
  ∧ (∀ id s, r = SubmitAccepted id s → s = processing).
Proof.
  induction ops as [|o ops IH]; intros srv req now r.
  - simpl. by intros ?%elem_of_nil.
  - rewrite service_run_cons. cbn [snd]. rewrite issued_cons.
    intros [Heq | Hin]%elem_of_cons.
    + injection Heq as <- ->. simpl. unfold SubmitGeneration.
      destruct (req_cart_items req) as [|item items]; simpl.
      * split; [done | by intros ? ? [=] ].
      * split.
        -- intros _. eexists. split; [done|]. apply elem_of_cons. by left.
        -- by intros ? ? [= _ <-].
    + destruct (IH _ _ _ _ Hin) as [H1 H2]. split; [|done].
      intros Hne. destruct (H1 Hne) as (id & -> & Hid).
      exists id. split; [done|]. apply elem_of_app. by right.
Qed.

(** C3.  In any run of the service, from any state: a [SubmitGeneration]
    with a non-empty cart is answered with status [processing] and an
    identifier, and no accepted submission is answered with any other
    status; the identifiers handed out in the run are pairwise distinct,
    position by position - equal requests included - and none was in
    the store before; and the store grows by exactly the Jobs of those
    identifiers. *)
Theorem SubmitGeneration_processing_and_unique ops srv :
  (∀ req now r,
     (Submit req now, r) ∈ (run ops srv).2 →
     (req_cart_items req ≠ [] →
        ∃ id, r = SubmitAccepted id processing
              ∧ id ∈ issued (run ops srv).2)
     ∧ (∀ id s, r = SubmitAccepted id s → s = processing))
  ∧ NoDup (issued (run ops srv).2)
  ∧ Forall (λ id, id ∉ dom (store srv)) (issued (run ops srv).2)
  ∧ dom (store (run ops srv).1) =
      dom (store srv) ∪ list_to_set (issued (run ops srv).2).
Proof.
  destruct (run_issued ops srv) as (Hd & Hn & Hu).
  split; [apply run_log_submit | done].
Qed.

(** *** Progress *)

Lemma emitted_cons id o ops :
  emitted id (o :: ops) =
  match o with
  | Progress k n =>
      if decide (k = id) then n :: emitted id ops else emitted id ops
  | _ => emitted id ops
  end.
Proof. destruct o; try done. unfold emitted. simpl. by case_decide. Qed.

Lemma GetStatus_NotFound id srv :
  reply_status (GetStatus id srv) = NotFound →
  reply_progress (GetStatus id srv) = 0.
Proof. unfold GetStatus. by destruct (get id (store srv)). Qed.

Lemma live_not_terminal r s :
  live r → reply_status r = Stored s → s = processing.
Proof. intros [H|H] Hs; congruence. Qed.

(** The invariant of a run: the progress of the Job is within range, it
    is [100] once [completed], and - while the Job can still change -
    no update to come carries less than what the store holds. *)
Lemma run_progress id ops : ∀ srv,
  0 ≤ reply_progress (GetStatus id srv) ≤ 100 →
  (reply_status (GetStatus id srv) = Stored completed →
   reply_progress (GetStatus id srv) = 100) →
  (live (GetStatus id srv) →
   Forall (λ n, reply_progress (GetStatus id srv) ≤ n) (emitted id ops)) →
  StronglySorted Z.le (emitted id ops) →
  Forall (λ n, n ≤ 100) (emitted id ops) →
  (reply_progress (GetStatus id srv)
     ≤ reply_progress (GetStatus id (run ops srv).1) ≤ 100
   ∧ (reply_status (GetStatus id (run ops srv).1) = Stored completed →
      reply_progress (GetStatus id (run ops srv).1) = 100))
  ∧ Forall (λ r, reply_progress (GetStatus id srv) ≤ reply_progress r ≤ 100)
           (observed id (run ops srv).2)
  ∧ StronglySorted Z.le (reply_progress <$> observed id (run ops srv).2)
  ∧ Forall (λ r, reply_status r = Stored completed → reply_progress r = 100)
           (observed id (run ops srv).2).
Proof.
  induction ops as [|o ops IH]; intros srv Hrange Hdone Hlive Hsorted Hmax.
  - simpl. split; [split; [lia | done]|]. repeat split; constructor.
  - rewrite service_run_cons. cbn [fst snd]. rewrite observed_exec.
    set (g := GetStatus id srv) in *.
    set (g1 := GetStatus id (exec o srv).1).
    assert (reply_progress g ≤ reply_progress g1 ≤ 100
            ∧ (reply_status g1 = Stored completed → reply_progress g1 = 100)
            ∧ (live g1 →
               Forall (λ n, reply_progress g1 ≤ n) (emitted id ops))
            ∧ StronglySorted Z.le (emitted id ops)
            ∧ Forall (λ n, n ≤ 100) (emitted id ops))
      as (Hle & Hdone1 & Hlive1 & Hs1 & Hm1).
    { assert (StronglySorted Z.le (emitted id ops)
              ∧ Forall (λ n, n ≤ 100) (emitted id ops)
              ∧ (live g → Forall (λ n, reply_progress g ≤ n) (emitted id ops)))
        as (Hs1 & Hm1 & Hl1).
      { rewrite emitted_cons in Hsorted, Hmax, Hlive.
        destruct o as [| | |k n|]; try done.
        case_decide; [|done].
        apply StronglySorted_inv in Hsorted as [? _].
        apply Forall_cons in Hmax as [_ ?].
        repeat split; [done..|]. intros Hg.
        by destruct (Forall_cons_1 _ _ _ (Hlive Hg)). }
      pose proof (exec_status_step id o srv) as Hstep.
      fold g g1 in Hstep.
      destruct Hstep as [|Hs|n Ho Hs|bytes s url s' Hput Hs|f Hs].
      - split; [lia|]. done.
      - assert (reply_progress g = 0) as H0
          by (by apply GetStatus_NotFound).
        simpl. split; [lia|]. split; [done|]. split; [|done].
        intros _. rewrite <- H0. apply Hl1. by left.
      - subst o. rewrite emitted_cons in Hsorted, Hmax, Hlive.
        rewrite decide_True in Hsorted, Hmax, Hlive by done.
        assert (live g) as Hg by (by right).
        apply Forall_cons in Hmax as [Hn _].
        destruct (Forall_cons_1 _ _ _ (Hlive Hg)) as [Hfloor _].
        apply StronglySorted_inv in Hsorted as [_ Hrest].
        simpl. split; [lia|]. split; [done|]. split; [|done].
        intros _. eapply Forall_impl; [exact Hrest | done].
      - simpl. split; [lia|]. split; [done|]. split; [|done].
        intros Hg. by pose proof (live_not_terminal _ _ Hg eq_refl).
      - simpl. split; [lia|]. split; [done|]. split; [|done].
        intros Hg. by pose proof (live_not_terminal _ _ Hg eq_refl). }
    destruct (IH (exec o srv).1) as ([Hend Hend100] & Hobs & Hmono & Hcomp);
      [fold g1; lia | done..|].
    fold g1 in Hobs, Hend.
    split; [split; [lia | done]|].
    assert (Forall (λ r, reply_progress g ≤ reply_progress r ≤ 100)
              (observed id (run ops (exec o srv).1).2)) as Hobs'
      by (eapply Forall_impl; [exact Hobs | simpl; intros; lia]).
    destruct o as [| |k| |]; try done.
    case_decide as Hk; [|done]. subst k.
    split; [|split].
    + constructor; [lia | done].
    + rewrite fmap_cons. constructor; [done|].
      apply Forall_fmap. eapply Forall_impl; [exact Hobs'|].
      simpl. intros; lia.
    + constructor; done.
Qed.

(** The store hands progress on as the Worker reports it.  If the
    Worker's progress updates for a Job carry values that never decrease,
    from [0] up to at most [100], then, in a run of the service from its
    start, the [progress] of the Job in the store, and of every
    [GetStatus] reply for it, lies between [0] and [100]; the values seen
    in successive replies never decrease, and [progress] is [100] whenever
    the Job is [completed].  Nothing in the store enforces the premise:
    it is the Worker's to keep. *)
Lemma progress_relayed (s0 : Storage) ops id :
  StronglySorted Z.le (0 :: emitted id ops) →
  Forall (λ n, n ≤ 100) (emitted id ops) →
  (∀ j, store (run ops (empty_server s0)).1 !! id = Some j →
        0 ≤ progress j ≤ 100
        ∧ (job_status j = completed → progress j = 100))
  ∧ Forall (λ r, 0 ≤ reply_progress r ≤ 100)
           (observed id (run ops (empty_server s0)).2)
  ∧ StronglySorted Z.le
      (reply_progress <$> observed id (run ops (empty_server s0)).2)
  ∧ StronglySorted Z.le
      (reply_progress <$>
         filter (λ r, reply_status r = Stored processing)
                (observed id (run ops (empty_server s0)).2))
  ∧ Forall (λ r, reply_status r = Stored completed → reply_progress r = 100)
           (observed id (run ops (empty_server s0)).2).
Proof.
  intros Hsorted Hmax.
  apply StronglySorted_inv in Hsorted as [Hs H0].
  destruct (run_progress id ops (empty_server s0))
    as ([Hend Hend100] & H1 & H2 & H3); [done..|].
  split.
  { intros j Hj. rewrite (GetStatus_Some _ _ _ Hj) in Hend, Hend100.
    simpl in Hend, Hend100. split; [done|].
    intros Hc. apply Hend100. by rewrite Hc. }
  split; [done|]. split; [done|]. split; [|done].
  clear -H2. induction (observed id _) as [|r obs IH]; [constructor|].
  rewrite fmap_cons in H2. apply StronglySorted_inv in H2 as [Hrest Hr].
  rewrite filter_cons. case_decide; [|by apply IH].
  rewrite fmap_cons. constructor; [by apply IH|].
  rewrite Forall_fmap, Forall_forall in Hr.
  rewrite Forall_fmap. apply Forall_forall.
  intros x [_ Hx]%list_elem_of_filter. by apply Hr.
Qed.

(** *** Uploads *)

(** On the side of the service, as the specification words it: a
    payload that does not decode as an image, or whose bytes exceed
    10 MiB, is answered with a failure and leaves Jobs and storage as
    they were. *)
Lemma UploadBackground_rejects image_data srv :
  (decode_image image_data = None
   ∨ ∃ bytes, decode_image image_data = Some bytes
              ∧ (10 * 1024 * 1024 < N.of_nat (String.length bytes))%N) →
  ∃ message,
    UploadBackground put_object decode_image image_data srv =
      (srv, UploadFailed message).
Proof.
  unfold UploadBackground. intros [-> | (bytes & -> & Hsize)]; [eauto|].
  apply N.ltb_lt in Hsize. unfold max_upload_bytes. rewrite Hsize. eauto.
Qed.

End Lifecycle.

(** *** The theorems at work on the small deployment *)

Abbreviation demo_run :=
  (run demo_catalog demo_generate demo_put demo_decode).

Lemma demo_put_url bytes objects url objects' :
  demo_put bytes objects = Some (url, objects') → url ≠ "".
Proof. by intros [= <- _]. Qed.

Lemma terminal_job_is_final_witness :
  let srv :=
    (demo_run [Submit (demo_request "modern") 1; Work "0"] (empty_server [])).1 in
  let j :=
    {| generation_id := "0"; job_status := completed; progress := 100;
       image_url := "https://storage.example/0"; error_message := "";
       created_at := 1 |} in
  store srv !! "0" = Some j
  ∧ terminal (job_status j) = true
  ∧ (∀ p, update "0" p (store srv) = (store srv, AlreadyTerminal))
  ∧ (∀ ops,
       GetStatus "0" (demo_run ops srv).1 = GetStatus "0" srv
       ∧ Forall (λ r, r = GetStatus "0" srv) (observed "0" (demo_run ops srv).2)).
Proof.
  cbv zeta.
  assert (store (demo_run [Submit (demo_request "modern") 1; Work "0"]
                   (empty_server [])).1 !! "0" =
          Some {| generation_id := "0"; job_status := completed;
                  progress := 100;
                  image_url := "https://storage.example/0";
                  error_message := ""; created_at := 1 |}) as Hj
    by (vm_compute; reflexivity).
  split; [exact Hj|]. split; [reflexivity|].
  destruct (terminal_job_is_final demo_catalog demo_generate demo_put
              demo_decode _ _ _ Hj eq_refl) as (Hupd & Hrun & _).
  split; [exact Hupd | exact Hrun].
Defined.

Lemma terminal_fields_exclusive_witness :
  let ops := [Submit (demo_request "modern") 1; Status "0"; Work "0";
              Status "0"; Submit (demo_request "broken") 5; Work "1"] in
  (∀ bytes s url s', demo_put bytes s = Some (url, s') → url ≠ "")
  ∧ (∀ j, store (demo_run ops (empty_server [])).1 !! "1" = Some j →
          match job_status j with
          | processing => image_url j = "" ∧ error_message j = ""
          | completed => image_url j ≠ "" ∧ error_message j = ""
          | failed => image_url j = "" ∧ error_message j ≠ ""
          end)
  ∧ Forall fields_agree (observed "0" (demo_run ops (empty_server [])).2)
  ∧ (reply_status <$> observed "0" (demo_run ops (empty_server [])).2) =
      [Stored processing; Stored completed].
Proof.
  cbv zeta. split; [exact demo_put_url|].
  split; [|split].
  - apply (terminal_fields_exclusive demo_catalog demo_generate demo_put
             demo_decode demo_put_url [] _ "1").
  - apply (terminal_fields_exclusive demo_catalog demo_generate demo_put
             demo_decode demo_put_url [] _ "0").
  - vm_compute. reflexivity.
Defined.

Lemma progress_relayed_example :
  let ops := [Submit (demo_request "modern") 1; Status "0";
              Progress "0" 30; Status "0"; Progress "0" 30;
              Progress "0" 80; Status "0"; Work "0"; Status "0"] in
  let obs := observed "0" (demo_run ops (empty_server [])).2 in
  emitted "0" ops = [30; 30; 80]
  ∧ (reply_progress <$> obs) = [0; 30; 80; 100]
  ∧ (∀ j, store (demo_run ops (empty_server [])).1 !! "0" = Some j →
          0 ≤ progress j ≤ 100
          ∧ (job_status j = completed → progress j = 100))
  ∧ Forall (λ r, 0 ≤ reply_progress r ≤ 100) obs
  ∧ StronglySorted Z.le (reply_progress <$> obs)
  ∧ StronglySorted Z.le
      (reply_progress <$> filter (λ r, reply_status r = Stored processing) obs)
  ∧ Forall (λ r, reply_status r = Stored completed → reply_progress r = 100) obs.
Proof.
  cbv zeta. split; [reflexivity|]. split; [vm_compute; reflexivity|].
  apply (progress_relayed demo_catalog demo_generate demo_put demo_decode).
  - change (StronglySorted Z.le [0; 30; 30; 80]).
    repeat constructor; lia.
  - change (Forall (λ n, n ≤ 100) [30; 30; 80]).
    repeat constructor; lia.
Defined.

(** Two equal submissions, two Jobs, two identifiers. *)
Lemma equal_submissions_distinct_ids :
  issued (demo_run [Submit (demo_request "modern") 1;
                    Submit (demo_request "modern") 1] (empty_server [])).2
  = ["0"; "1"].
Proof. vm_compute. reflexivity. Qed.

End ServiceFacts.

(* ===================================================================== *)
(** ** More on the client                                                *)
(* ===================================================================== *)

Module ClientMore.
Import JS Client JSFacts ClientFacts.
Local Open Scope Z_scope.

(** *** Reading what the page renders *)

Lemma cart_item_of_rendered_row base label id n :
  includes "/product/" (base +:+ "/product") = false →
  includes "/product/" id = false →
  has_digit label = false →
  0 ≤ n ≤ 2 ^ 53 →
  cart_item_of_row (rendered_row base label (id, n))
  = Ok (Some {| product_id := JStr id; quantity := Exact n |}).
Proof.
  intros Hbase Hid Hlabel Hn.
  destruct (parseInt_pretty n Hn) as (Hparse & Hdigits & Hne).
  unfold cart_item_of_row, rendered_row. cbn [product_link quantity_col fst snd].
  pose proof (split_1_app "/product" (Ascii.ascii_of_nat 47) base id) as Hsplit.
  change ("/product" +:+ String (Ascii.ascii_of_nat 47) "")
    with "/product/" in Hsplit.
  rewrite Hsplit by done.
  rewrite match_digits_label by done. by rewrite Hparse.
Qed.

(** X9.  For a page whose rows link to [base/product/<id>] and show
    their quantity as a label without digits followed by the quantity in
    decimal, [getCartItemsFromPage] returns exactly the identifiers and
    quantities rendered, in order - provided ["/product/"] occurs neither
    in an identifier nor earlier in the link, and every quantity lies
    between [0] and [2^53], the integers that [parseInt] returns
    unrounded. *)
Theorem getCartItemsFromPage_rendered base label entries :
  includes "/product/" (base +:+ "/product") = false →
  has_digit label = false →
  Forall (λ entry, includes "/product/" entry.1 = false
                   ∧ 0 ≤ entry.2 ≤ 2 ^ 53) entries →
  getCartItemsFromPage (rendered_row base label <$> entries)
  = Ok ((λ entry, {| product_id := JStr entry.1; quantity := Exact entry.2 |})
          <$> entries).
Proof.
  intros Hbase Hlabel Hentries.
  induction Hentries as [|[id n] entries [Hid Hn] _ IH]; [done|].
  rewrite !fmap_cons, getCartItemsFromPage_cons.
  rewrite cart_item_of_rendered_row by done. by rewrite IH.
Qed.

Lemma getCartItemsFromPage_rendered_witness :
  getCartItemsFromPage
    (rendered_row "https://shop.example" "Quantity: "
       <$> [("OLJCESPC7Z", 2); ("66VCHSJNUP", 10)])
  = Ok [ {| product_id := JStr "OLJCESPC7Z"; quantity := Exact 2 |};
         {| product_id := JStr "66VCHSJNUP"; quantity := Exact 10 |} ].
Proof.
  apply (getCartItemsFromPage_rendered "https://shop.example" "Quantity: "
           [("OLJCESPC7Z", 2); ("66VCHSJNUP", 10)]).
  - reflexivity.
  - reflexivity.
  - repeat constructor; simpl; lia.
Defined.

(** X1.  When the engine rejects the quantity selector, a page with at
    least one row that holds a product link makes [getCartItemsFromPage]
    throw; [generateImage] then dies before its [try]: no alert, no
    request, nothing changed on the page. *)
Theorem rejected_selector_stops_generateImage itemRows :
  Forall (λ row, quantity_col row = QInvalidSelector) itemRows →
  Exists (λ row, is_Some (product_link row)) itemRows →
  ∃ m, getCartItemsFromPage itemRows = Throw m
       ∧ ∀ now st, generateImage itemRows now st = (st, [EUncaught m]).
Proof.
  intros Hall Hsome.
  assert (∃ m, getCartItemsFromPage itemRows = Throw m) as [m Hm].
  { induction Hsome as [row rows [href Hlink] | row rows _ IH].
    - apply Forall_cons in Hall as [Hq _].
      rewrite getCartItemsFromPage_cons. unfold cart_item_of_row.
      rewrite Hlink, Hq. eauto.
    - apply Forall_cons in Hall as [Hq Hall].
      destruct (IH Hall) as [m Hm].
      rewrite getCartItemsFromPage_cons, Hm. unfold cart_item_of_row.
      destruct (product_link row); [rewrite Hq|]; eauto. }
  exists m. split; [done|]. intros now st.
  unfold generateImage. by rewrite Hm.
Qed.

Lemma rejected_selector_stops_generateImage_witness :
  let rows := [ {| product_link := Some "https://shop.example/product/OLJCESPC7Z";
                   quantity_col := QInvalidSelector |} ] in
  ∃ m, getCartItemsFromPage rows = Throw m
       ∧ ∀ now st, generateImage rows now st = (st, [EUncaught m]).
Proof.
  apply rejected_selector_stops_generateImage.
  - repeat constructor.
  - constructor. simpl. eauto.
Defined.

(** *** Resets *)

Ltac dom_lookup :=
  unfold dom_value; cbn;
  repeat first [ rewrite lookup_insert_eq | rewrite lookup_insert_ne by done ];
  done.

Lemma resetImageGenerationForm_resets st :
  form_is_reset (resetImageGenerationForm st).1.
Proof. unfold form_is_reset. repeat split; dom_lookup. Qed.

Lemma resetImageGenerationForm_silent st :
  (resetImageGenerationForm st).2 = [].
Proof. done. Qed.

(** *** Submitting *)

(** X2.  With a non-empty cart, [generateImage] sends exactly one request,
    a submission carrying the extracted items, the style selected on the
    page, the user id built from the clock and the uploaded background's
    URL (the empty string when there is none); it raises no alert, keeps
    the three globals, and switches the page to the progress panel at
    0%. *)
Theorem generateImage_submits_cart itemRows items now st :
  getCartItemsFromPage itemRows = Ok items →
  items ≠ [] →
  (generateImage itemRows now st).2 =
    [EFetch (GenerateImageReq
       {| user_id := "user_" +:+ pretty now;
          style_preference := dom_value "stylePreference.value" st;
          background_image_url := js_or (uploadedBackgroundUrl st) (JStr "");
          cart_items := items |})]
  ∧ currentGenerationId (generateImage itemRows now st).1 = currentGenerationId st
  ∧ uploadedBackgroundUrl (generateImage itemRows now st).1 = uploadedBackgroundUrl st
  ∧ uploadedBackgroundData (generateImage itemRows now st).1 = uploadedBackgroundData st
  ∧ dom_value ".image-generation-form.style.display" (generateImage itemRows now st).1 = "none"
  ∧ dom_value "generationProgress.style.display" (generateImage itemRows now st).1 = "block"
  ∧ dom_value "generatedImageResult.style.display" (generateImage itemRows now st).1 = "none"
  ∧ dom_value "progressText.textContent" (generateImage itemRows now st).1 = "0%".
Proof.
  intros Hcart Hne. unfold generateImage. rewrite Hcart.
  destruct items as [|item items]; [done|]. cbn [length Nat.eqb].
  repeat split; dom_lookup.
Qed.

Lemma generateImage_submits_cart_witness :
  let rows := [ {| product_link := Some "https://shop.example/product/OLJCESPC7Z";
                   quantity_col := QNoMatch |} ] in
  let st := set_dom "stylePreference.value" "vintage" (initial ∅) in
  (generateImage rows 1700000000000 st).2 =
    [EFetch (GenerateImageReq
       {| user_id := "user_1700000000000";
          style_preference := "vintage";
          background_image_url := JStr "";
          cart_items := [ {| product_id := JStr "OLJCESPC7Z"; quantity := 1 |} ] |})].
Proof.
  cbv zeta.
  destruct (generateImage_submits_cart
    [ {| product_link := Some "https://shop.example/product/OLJCESPC7Z";
         quantity_col := QNoMatch |} ]
    [ {| product_id := JStr "OLJCESPC7Z"; quantity := 1 |} ]
    1700000000000
    (set_dom "stylePreference.value" "vintage" (initial ∅))
    eq_refl) as [H _]; [done|].
  exact H.
Defined.

(** X3.  A submission that settles with any status other than
    ["completed"] and ["processing"] - a missing status included - or
    whose request throws, ends in the [catch] block: one alert that
    carries the reply's [error_message] (a fixed text when it has none)
    or the error's message, no request, no timer, and the form reset. *)
Theorem generateImage_settled_failure o st :
  submission_fails o = true →
  (generateImage_settled o st).2 =
    [EAlert ("Error generating image: " +:+ failure_message o)]
  ∧ form_is_reset (generateImage_settled o st).1.
Proof.
  intros Ho. destruct o as [result|m]; cbn in Ho |- *.
  - apply negb_true_iff, orb_false_elim in Ho as [H1 H2].
    unfold generateImage_settled. rewrite H1, H2.
    split; [done|]. apply resetImageGenerationForm_resets.
  - split; [done|]. apply resetImageGenerationForm_resets.
Qed.

Lemma generateImage_settled_failure_witness :
  let st := set_currentGenerationId (JStr "old") (initial ∅) in
  let o := Json {[ "status" := JStr "failed" ]} in
  submission_fails o = true
  ∧ (generateImage_settled o st).2 =
      [EAlert "Error generating image: Image generation failed"]
  ∧ form_is_reset (generateImage_settled o st).1.
Proof.
  cbv zeta.
  assert (submission_fails (Json {[ "status" := JStr "failed" ]}) = true) as Ho
    by (vm_compute; reflexivity).
  destruct (generateImage_settled_failure
              (Json {[ "status" := JStr "failed" ]})
              (set_currentGenerationId (JStr "old") (initial ∅)) Ho) as [H1 H2].
  split; [exact Ho|]. split; [|exact H2].
  rewrite H1. vm_compute. reflexivity.
Defined.

(** X11.  A reply of status ["processing"] that carries no usable
    [generation_id] - missing, [null] or empty - starts no polling and
    tells the user nothing: no request, no timer, no alert, the page as
    it was; and a timer firing afterwards sends nothing either. *)
Theorem generateImage_settled_processing_without_id result st :
  field result "status" = JStr "processing" →
  truthy (field result "generation_id") = false →
  (generateImage_settled (Json result) st).2 = []
  ∧ dom (generateImage_settled (Json result) st).1 = dom st
  ∧ (pollGenerationStatus (generateImage_settled (Json result) st).1).2 = [].
Proof.
  intros Hst Hid. rewrite generateImage_settled_processing by done.
  unfold pollGenerationStatus. cbn. rewrite Hid. cbn. by rewrite Hid.
Qed.

Lemma generateImage_settled_processing_without_id_witness :
  let st := (generateImage
               [ {| product_link := Some "https://shop.example/product/OLJCESPC7Z";
                    quantity_col := QNoMatch |} ] 1700000000000 (initial ∅)).1 in
  let result : gmap string jsval := {[ "status" := JStr "processing" ]} in
  (generateImage_settled (Json result) st).2 = []
  ∧ dom (generateImage_settled (Json result) st).1 = dom st
  ∧ (pollGenerationStatus (generateImage_settled (Json result) st).1).2 = []
  ∧ dom_value "generationProgress.style.display"
      (generateImage_settled (Json result) st).1 = "block".
Proof.
  cbv zeta.
  destruct (generateImage_settled_processing_without_id
              {[ "status" := JStr "processing" ]}
              (generateImage
                 [ {| product_link := Some "https://shop.example/product/OLJCESPC7Z";
                      quantity_col := QNoMatch |} ] 1700000000000 (initial ∅)).1)
    as (H1 & H2 & H3); [vm_compute; reflexivity..|].
  split; [exact H1|]. split; [exact H2|]. split; [exact H3|].
  vm_compute. reflexivity.
Defined.

(** *** Polling needs a generation *)

Lemma client_run_effects ev evs st :
  (run (ev :: evs) st).2 = (step ev st).2 ++ (run evs (step ev st).1).2.
Proof.
  cbn [run]. unfold seq. destruct (step ev st) as [st1 e1]. cbn [fst snd].
  by destruct (run evs st1).
Qed.

Lemma requests_app e1 e2 : requests (e1 ++ e2) = requests e1 ++ requests e2.
Proof. unfold requests. apply omap_app. Qed.

(** Outside lines 191-196 nothing gives [currentGenerationId] a value,
    and without one no status request leaves the page. *)
Lemma step_without_generation ev st :
  truthy (currentGenerationId st) = false →
  assigns_generation ev = false →
  truthy (currentGenerationId (step ev st).1) = false
  ∧ Forall (λ r, is_status_request r = false) (requests (step ev st).2).
Proof.
  intros Hid Hev. destruct ev; cbn [step].
  - split; [done | constructor].
  - split; [done | constructor].
  - split; [done | constructor].
  - unfold escape_keydown. destruct (String.eqb _ _); split; (done || constructor).
  - unfold handleBackgroundUpload. destruct file as [f|]; [|by split; [|constructor]].
    destruct (negb _); [by split; [|constructor]|].
    destruct (_ <? _)%N; by split; [|constructor].
  - split; [done|]. repeat constructor.
  - destruct o as [result|m]; [|by split; [|constructor]].
    cbn. destruct (strict_eq_str _ "success"); by split; [|constructor].
  - split; [done | constructor].
  - split; [done | constructor].
  - unfold generateImage. destruct (getCartItemsFromPage _);
      [|by split; [|constructor]].
    destruct (_ =? _)%nat; [by split; [|constructor]|].
    split; [done|]. repeat constructor.
  - destruct o as [result|m]; [|by split; [|constructor]].
    cbn in Hev. apply orb_false_elim in Hev as [H1 H2].
    unfold generateImage_settled. rewrite H1, H2. by split; [|constructor].
  - unfold pollGenerationStatus. rewrite Hid. by split; [|constructor].
  - unfold pollGenerationStatus_settled. destruct o as [result|m];
      [|by split; [|constructor]].
    destruct (strict_eq_str (field result "status") "completed");
      [by split; [|constructor]|].
    destruct (strict_eq_str (field result "status") "failed");
      [by split; [|constructor]|].
    destruct (strict_eq_str (field result "status") "processing");
      by split; [|constructor].
  - split; [done | constructor].
  - unfold downloadImage. destruct (String.eqb _ _); by split; [|constructor].
Qed.

(** X5.  From a state without a generation identifier, and as long as no
    submission is answered with ["completed"] or ["processing"], nothing
    that happens on the page - timers firing, stale status replies
    arriving, uploads, clicks - sends a request to the status endpoint,
    and the identifier stays unset. *)
Theorem no_status_request_without_generation evs st :
  truthy (currentGenerationId st) = false →
  Forall (λ ev, assigns_generation ev = false) evs →
  Forall (λ r, is_status_request r = false) (requests (run evs st).2)
  ∧ truthy (currentGenerationId (run evs st).1) = false.
Proof.
  intros Hid Hevs. revert st Hid.
  induction Hevs as [|ev evs Hev _ IH]; intros st Hid.
  - split; [constructor | done].
  - destruct (step_without_generation ev st Hid Hev) as [Hid1 Hreq1].
    destruct (IH _ Hid1) as [Hreq Hend].
    rewrite client_run_effects, requests_app, client_run_cons.
    split; [by apply Forall_app | done].
Qed.

Lemma no_status_request_without_generation_witness :
  let evs := [OpenModal; PollTimer;
              PollSettled (Json {[ "status" := JStr "processing" ]});
              PollTimer; CloseModal; PollTimer] in
  requests (run evs (initial ∅)).2 = []
  ∧ Forall (λ r, is_status_request r = false) (requests (run evs (initial ∅)).2)
  ∧ truthy (currentGenerationId (run evs (initial ∅)).1) = false.
Proof.
  cbv zeta. split; [vm_compute; reflexivity|].
  apply no_status_request_without_generation; [reflexivity|].
  repeat constructor.
Defined.

(** X6.  A status request that throws, or whose reply has status
    ["failed"], ends the polling: one alert that carries the reply's
    [error_message] (a fixed text when it has none) or the error's
    message, no timer, no request, the form reset - and from then on no
    status request until a new submission is accepted. *)
Theorem pollGenerationStatus_settled_failure o st :
  poll_fails o = true →
  (pollGenerationStatus_settled o st).2 =
    [EAlert ("Error checking generation status: " +:+ failure_message o)]
  ∧ form_is_reset (pollGenerationStatus_settled o st).1
  ∧ (∀ evs,
       Forall (λ ev, assigns_generation ev = false) evs →
       Forall (λ r, is_status_request r = false)
         (requests (run evs (pollGenerationStatus_settled o st).1).2)).
Proof.
  intros Ho.
  assert ((pollGenerationStatus_settled o st).2 =
            [EAlert ("Error checking generation status: " +:+ failure_message o)]
          ∧ form_is_reset (pollGenerationStatus_settled o st).1) as [Heff Hreset].
  { destruct o as [result|m]; cbn in Ho |- *.
    - unfold pollGenerationStatus_settled.
      assert (strict_eq_str (field result "status") "completed" = false) as ->.
      { apply strict_eq_str_true in Ho. by rewrite Ho. }
      rewrite Ho. split; [done|]. apply resetImageGenerationForm_resets.
    - split; [done|]. apply resetImageGenerationForm_resets. }
  split; [done|]. split; [done|]. intros evs Hevs.
  apply no_status_request_without_generation; [|done].
  destruct Hreset as [-> _]. done.
Qed.

Lemma pollGenerationStatus_settled_failure_witness :
  let st := set_currentGenerationId (JStr "7f3a") (initial ∅) in
  let o := Threw "Failed to fetch" in
  poll_fails o = true
  ∧ (pollGenerationStatus_settled o st).2 =
      [EAlert "Error checking generation status: Failed to fetch"]
  ∧ requests (run [PollTimer; PollTimer]
                (pollGenerationStatus_settled o st).1).2 = [].
Proof.
  cbv zeta.
  destruct (pollGenerationStatus_settled_failure (Threw "Failed to fetch")
              (set_currentGenerationId (JStr "7f3a") (initial ∅)) eq_refl)
    as (H1 & _ & _).
  split; [reflexivity|]. split; [exact H1|]. vm_compute. reflexivity.
Defined.

(** *** A reply the loop does not know *)

Lemma alerts_cons e effs :
  alerts (e :: effs) =
  match e with EAlert m => m :: alerts effs | _ => alerts effs end.
Proof. by destruct e. Qed.

Lemma pollGenerationStatus_settled_unhandled o st :
  poll_unhandled o = true →
  (pollGenerationStatus_settled o st).2 = []
  ∧ currentGenerationId (pollGenerationStatus_settled o st).1
    = currentGenerationId st.
Proof.
  destruct o as [result|m]; [|done]. cbn [poll_unhandled].
  intros [[H1 H2]%orb_false_elim H3]%negb_true_iff%orb_false_elim.
  unfold pollGenerationStatus_settled. by rewrite H1, H2, H3.
Qed.

Lemma pollLoop_state_processing result later st :
  truthy (currentGenerationId st) = true →
  field result "status" = JStr "processing" →
  (pollLoop (Json result :: later) st).1 =
    (pollLoop later
       (updateProgress (js_or (field result "progress") (JNum 0)) st).1).1.
Proof.
  intros Hid Hst.
  rewrite pollLoop_cons, pollGenerationStatus_settled_processing by done.
  cbn [rearmed existsb orb]. by destruct (pollLoop later _).
Qed.

(** X4.  A run of the status loop that sees [n] replies of status
    ["processing"] and then a reply whose status is none of
    ["completed"], ["failed"] and ["processing"] - ["not_found"], say, or
    no status at all - stops there without a word: [n + 1] requests and
    [n] timers as before, but no alert, and [currentGenerationId] still
    names the generation. *)
Theorem pollLoop_stops_silently processing_replies other later st :
  truthy (currentGenerationId st) = true →
  Forall (replies_with "processing") processing_replies →
  poll_unhandled other = true →
  requests (pollLoop (processing_replies ++ other :: later) st).2 =
    replicate (S (length processing_replies))
              (StatusReq (ToString (currentGenerationId st)))
  ∧ timers (pollLoop (processing_replies ++ other :: later) st).2 =
      replicate (length processing_replies) (PollGenerationStatus, 2000)
  ∧ alerts (pollLoop (processing_replies ++ other :: later) st).2 = []
  ∧ currentGenerationId (pollLoop (processing_replies ++ other :: later) st).1
    = currentGenerationId st.
Proof.
  intros Hid Hproc Hother. revert st Hid.
  induction Hproc as [|reply rest (result & -> & Hst) _ IH]; intros st Hid.
  - destruct (pollGenerationStatus_settled_unhandled other st Hother)
      as [Heff Hkeep].
    rewrite app_nil_l, pollLoop_cons by done.
    destruct (pollGenerationStatus_settled other st) as [st2 effs].
    simpl in Heff, Hkeep. subst effs. by cbn.
  - rewrite <- app_comm_cons.
    rewrite pollLoop_processing, pollLoop_state_processing by done.
    destruct (IH (updateProgress
                    (js_or (field result "progress") (JNum 0)) st).1 Hid)
      as (Hreq & Htim & Hal & Hkeep).
    rewrite !requests_cons, !timers_cons, !alerts_cons, Hreq, Htim, Hal, Hkeep.
    done.
Qed.

Lemma pollLoop_stops_silently_witness :
  let st := set_currentGenerationId (JStr "7f3a") (initial ∅) in
  let replies :=
    [Json {[ "status" := JStr "processing"; "progress" := JNum 10 ]}] in
  let other := Json {[ "status" := JStr "not_found" ]} in
  let later := [Json {[ "status" := JStr "completed" ]}] in
  requests (pollLoop (replies ++ other :: later) st).2 =
    replicate 2 (StatusReq "7f3a")
  ∧ timers (pollLoop (replies ++ other :: later) st).2 =
      replicate 1 (PollGenerationStatus, 2000)
  ∧ alerts (pollLoop (replies ++ other :: later) st).2 = []
  ∧ currentGenerationId (pollLoop (replies ++ other :: later) st).1
    = JStr "7f3a".
Proof.
  apply (pollLoop_stops_silently
           [Json {[ "status" := JStr "processing"; "progress" := JNum 10 ]}]
           (Json {[ "status" := JStr "not_found" ]})).
  - reflexivity.
  - repeat constructor; eexists; (split; [reflexivity | vm_compute; reflexivity]).
  - vm_compute. reflexivity.
Defined.

(** *** Uploading a background *)

(** X10.  [handleBackgroundUpload] starts reading the chosen file exactly
    when its type starts with [image/] and its size is at most
    10 * 1024 * 1024 bytes - a file of exactly that size passes - and in
    no case does it change the state or send a request itself. *)
Theorem handleBackgroundUpload_reads_iff f st :
  ((handleBackgroundUpload (Some f) st).2 = [EReadAsDataURL f]
   ↔ startsWith "image/" (file_type f) = true
     ∧ (file_size f ≤ 10 * 1024 * 1024)%N)
  ∧ (handleBackgroundUpload (Some f) st).1 = st
  ∧ requests (handleBackgroundUpload (Some f) st).2 = [].
Proof.
  unfold handleBackgroundUpload, max_background_bytes.
  destruct (startsWith "image/" (file_type f)) eqn:Htype; cbn [negb].
  - destruct (10 * 1024 * 1024 <? file_size f)%N eqn:Hsize.
    + apply N.ltb_lt in Hsize. split; [|done].
      split; [done | intros [_ ?]; lia].
    + apply N.ltb_ge in Hsize. split; [|done]. by split.
  - split; [|done]. split; [done | by intros [? _]].
Qed.

(** X8.  Once the file is read, the upload carries exactly the part of
    the data URL after its first comma - the base64 payload of
    [data:<type>;base64,<payload>] - and that payload is what
    [uploadedBackgroundData] holds; the preview shows the whole data URL.
    A result without a comma sends no [image_data] at all. *)
Theorem reader_onload_uploads_payload st :
  (∀ header payload,
     includes "," header = false →
     includes "," payload = false →
     (reader_onload (header +:+ "," +:+ payload) st).2 =
       [EFetch (UploadBackgroundReq (JStr payload))]
     ∧ uploadedBackgroundData (reader_onload (header +:+ "," +:+ payload) st).1
       = JStr payload
     ∧ dom_value "backgroundPreviewImg.src"
         (reader_onload (header +:+ "," +:+ payload) st).1
       = header +:+ "," +:+ payload)
  ∧ (∀ dataURL,
       includes "," dataURL = false →
       (reader_onload dataURL st).2 = [EFetch (UploadBackgroundReq JUndefined)]).
Proof.
  split.
  - intros header payload Hh Hp.
    pose proof (split_1_app "" (Ascii.ascii_of_nat 44) header payload) as Hsplit.
    change ("" +:+ String (Ascii.ascii_of_nat 44) "") with "," in Hsplit.
    assert (header +:+ "" = header) as Hnil.
    { clear. induction header as [|c h IH]; [done|].
      rewrite string_app_cons. by f_equal. }
    rewrite Hnil in Hsplit. specialize (Hsplit Hh Hp).
    unfold reader_onload. cbn. rewrite Hsplit. cbn.
    repeat split. dom_lookup.
  - intros dataURL Hno. unfold reader_onload. cbn.
    by rewrite split_1_absent.
Qed.

Lemma reader_onload_uploads_payload_witness :
  (reader_onload "data:image/png;base64,iVBORw0KGgo=" (initial ∅)).2 =
    [EFetch (UploadBackgroundReq (JStr "iVBORw0KGgo="))].
Proof.
  destruct (reader_onload_uploads_payload (initial ∅)) as [H _].
  destruct (H "data:image/png;base64" "iVBORw0KGgo=" eq_refl eq_refl)
    as [Heff _].
  exact Heff.
Defined.

(** X7.  After an upload settles with status ["success"], the next
    [generateImage] with a non-empty cart sends the [image_url] of that
    reply as [background_image_url] - and the empty string when the reply
    carries none. *)
Theorem successful_upload_is_sent result itemRows items now st :
  field result "status" = JStr "success" →
  getCartItemsFromPage itemRows = Ok items →
  items ≠ [] →
  requests (run [UploadSettled (Json result); Generate itemRows now] st).2 =
    [GenerateImageReq
       {| user_id := "user_" +:+ pretty now;
          style_preference := dom_value "stylePreference.value" st;
          background_image_url := js_or (field result "image_url") (JStr "");
          cart_items := items |}].
Proof.
  intros Hst Hcart Hne.
  assert (uploadBackgroundToServer_settled (Json result) st =
            (set_uploadedBackgroundUrl (field result "image_url") st, [])) as Hup
    by (unfold uploadBackgroundToServer_settled; by rewrite Hst).
  destruct (generateImage_submits_cart itemRows items now
              (set_uploadedBackgroundUrl (field result "image_url") st)
              Hcart Hne) as [Heff _].
  rewrite !client_run_effects. cbn [step]. rewrite Hup. cbn [fst snd].
  rewrite Heff. cbn [run skip snd]. by rewrite app_nil_r.
Qed.

Lemma successful_upload_is_sent_witness :
  let rows := [ {| product_link := Some "https://shop.example/product/OLJCESPC7Z";
                   quantity_col := QNoMatch |} ] in
  let result : gmap string jsval :=
    {[ "status" := JStr "success";
       "image_url" := JStr "https://storage.example/bg/1.png" ]} in
  requests (run [UploadSettled (Json result); Generate rows 1700000000000]
              (initial ∅)).2 =
    [GenerateImageReq
       {| user_id := "user_1700000000000";
          style_preference := "";
          background_image_url := JStr "https://storage.example/bg/1.png";
          cart_items := [ {| product_id := JStr "OLJCESPC7Z"; quantity := 1 |} ] |}].
Proof.
  cbv zeta.
  rewrite (successful_upload_is_sent
             {[ "status" := JStr "success";
                "image_url" := JStr "https://storage.example/bg/1.png" ]}
             [ {| product_link := Some "https://shop.example/product/OLJCESPC7Z";
                  quantity_col := QNoMatch |} ]
             [ {| product_id := JStr "OLJCESPC7Z"; quantity := 1 |} ]
             1700000000000 (initial ∅));
    [vm_compute; reflexivity | vm_compute; reflexivity | reflexivity | done].
Defined.

(** *** Resetting the form, showing the image *)

(** X12.  Opening the modal, closing it, clicking outside it, the
    generated image failing to load, and the Escape key while the modal
    is shown all leave the form reset and send nothing; whatever timers
    are still pending then fire in vain - no status request leaves the
    page until a new submission is accepted.  The Escape key with the
    modal not shown does nothing at all. *)
Theorem reset_events_stop_polling ev st :
  always_resets ev = true
  ∨ (ev = EscapeKey
     ∧ dom_value "imageGenerationModal.style.display" st = "block") →
  form_is_reset (step ev st).1
  ∧ requests (step ev st).2 = []
  ∧ timers (step ev st).2 = []
  ∧ (∀ evs,
       Forall (λ ev', assigns_generation ev' = false) evs →
       Forall (λ r, is_status_request r = false)
         (requests (run evs (step ev st).1).2))
  ∧ (∀ st',
       dom_value "imageGenerationModal.style.display" st' ≠ "block" →
       step EscapeKey st' = (st', [])).
Proof.
  intros Hev.
  assert (form_is_reset (step ev st).1
          ∧ requests (step ev st).2 = []
          ∧ timers (step ev st).2 = []) as (Hreset & Hreq & Htim).
  { destruct Hev as [Hev | [-> Hshown]].
    - destruct ev; try done; cbn [step];
        (split; [unfold form_is_reset; repeat split; dom_lookup | done]).
    - cbn [step]. unfold escape_keydown. rewrite Hshown.
      change (String.eqb "block" "block") with true. cbn match.
      split; [unfold form_is_reset; repeat split; dom_lookup | done]. }
  split; [done|]. split; [done|]. split; [done|]. split.
  - intros evs Hevs. apply no_status_request_without_generation; [|done].
    destruct Hreset as [-> _]. done.
  - intros st' Hhidden. cbn [step]. unfold escape_keydown.
    destruct (String.eqb _ "block") eqn:E; [|done].
    by apply String.eqb_eq in E.
Qed.

Lemma reset_events_stop_polling_witness :
  let st := set_uploadedBackgroundUrl (JStr "https://storage.example/bg/1.png")
              (set_currentGenerationId (JStr "7f3a") (initial ∅)) in
  form_is_reset (step CloseModal st).1
  ∧ requests (run [PollTimer] (step CloseModal st).1).2 = [].
Proof.
  cbv zeta.
  destruct (reset_events_stop_polling CloseModal
              (set_uploadedBackgroundUrl (JStr "https://storage.example/bg/1.png")
                 (set_currentGenerationId (JStr "7f3a") (initial ∅))))
    as (H & _); [by left|].
  split; [exact H|]. vm_compute. reflexivity.
Defined.

(** X13.  A reply of status ["completed"] - to the submission or to a
    status request - shows the result panel with the reply's [image_url]
    as the image source, hides the progress panel, and sends nothing: no
    request, no timer, no alert.  The submission's reply also stores the
    [generation_id]; a status reply leaves it as it is. *)
Theorem completed_reply_shows_image result st :
  field result "status" = JStr "completed" →
  ((generateImage_settled (Json result) st).2 = []
   ∧ currentGenerationId (generateImage_settled (Json result) st).1
     = field result "generation_id"
   ∧ dom_value "generatedImage.src" (generateImage_settled (Json result) st).1
     = ToString (field result "image_url")
   ∧ dom_value "generatedImageResult.style.display"
       (generateImage_settled (Json result) st).1 = "block"
   ∧ dom_value "generationProgress.style.display"
       (generateImage_settled (Json result) st).1 = "none")
  ∧ ((pollGenerationStatus_settled (Json result) st).2 = []
     ∧ currentGenerationId (pollGenerationStatus_settled (Json result) st).1
       = currentGenerationId st
     ∧ dom_value "generatedImage.src"
         (pollGenerationStatus_settled (Json result) st).1
       = ToString (field result "image_url")
     ∧ dom_value "generatedImageResult.style.display"
         (pollGenerationStatus_settled (Json result) st).1 = "block"
     ∧ dom_value "generationProgress.style.display"
         (pollGenerationStatus_settled (Json result) st).1 = "none").
Proof.
  intros Hst. unfold generateImage_settled, pollGenerationStatus_settled.
  rewrite Hst. change (strict_eq_str (JStr "completed") "completed") with true.
  cbn match. split; repeat split; dom_lookup.
Qed.

Lemma completed_reply_shows_image_witness :
  let result : gmap string jsval :=
    {[ "status" := JStr "completed"; "generation_id" := JStr "7f3a";
       "image_url" := JStr "https://storage.example/7f3a.jpg" ]} in
  (generateImage_settled (Json result) (initial ∅)).2 = []
  ∧ currentGenerationId (generateImage_settled (Json result) (initial ∅)).1
    = JStr "7f3a"
  ∧ dom_value "generatedImage.src"
      (generateImage_settled (Json result) (initial ∅)).1
    = "https://storage.example/7f3a.jpg".
Proof.
  cbv zeta.
  destruct (completed_reply_shows_image
              {[ "status" := JStr "completed"; "generation_id" := JStr "7f3a";
                 "image_url" := JStr "https://storage.example/7f3a.jpg" ]}
              (initial ∅)) as [(H1 & H2 & H3 & _) _];
    [vm_compute; reflexivity|].
  split; [exact H1|]. split; [rewrite H2; vm_compute; reflexivity|].
  rewrite H3. vm_compute. reflexivity.
Defined.

End ClientMore.
